(** * Phase gates of the SDLC tracker: a shallow embedding

    The development follows three scripts of the repository:

    - [scripts/gate_validator.py]: the criteria registry, the checkers and
      [validate_phase], with the command line entry point;
    - [scripts/init_sdlc.py]: creation of the [.sdlc] directory;
    - [scripts/orchestrate.py]: the state helpers, the phase handlers and the
      interactive walk over the seven phases.

    Python values that come out of [json.load] are kept as a JSON tree,
    dictionaries as association lists in insertion order.  The project
    directory is a finite tree of files and directories.  Exceptions are
    explicit: fallible pure code returns [res], the orchestrator runs in a
    state-and-exception monad over a [world]. *)

From Stdlib Require Import String Ascii List ZArith Bool Arith Lia.
From Stdlib Require Import DecimalString.
Import ListNotations.

Set Warnings "-register-all".

Local Open Scope string_scope.
Local Open Scope list_scope.

Notation "s +++ t" := (String.append s t) (at level 60, right associativity).

(* ------------------------------------------------------------------ *)
(** ** Python values and exceptions *)

Module Py.

(** Exceptions the three scripts can raise.  [SystemExit] carries the
    exit code given to [sys.exit].  [Unfinished] is no Python exception:
    it marks a loop of the model cut short by its bound, which
    [OrchestrateFacts.gate_check_finishes] shows never to happen. *)
Inductive exn : Type :=
| KeyError (key : string)
| TypeError
| AttributeError
| ValueError
| EOFError
| IndexError
| JSONDecodeError
| FileNotFoundError
| IsADirectoryError
| NotADirectoryError
| FileExistsError
| NotImplementedError
| SystemExit (code : Z)
| Unfinished.

(** Result of a fallible pure computation. *)
Inductive res (A : Type) : Type :=
| Val (a : A)
| Err (e : exn).
Arguments Val {A} a.
Arguments Err {A} e.

Definition rbind {A B} (m : res A) (f : A -> res B) : res B :=
  match m with
  | Val a => f a
  | Err e => Err e
  end.

Notation "'try' x <- m ; k" := (rbind m (fun x => k))
  (at level 10, x name, m at level 100, k at level 200).

(** Values produced by [json.load]: [None], booleans, integers, strings,
    lists and dictionaries (floats do not occur in the state document). *)
Inductive json : Type :=
| JNull
| JBool (b : bool)
| JNum (n : Z)
| JStr (s : string)
| JArr (items : list json)
| JObj (fields : list (string * json)).

(** Python truthiness, as used by [if not state] and [.get("gate_passed")]. *)
Definition truthy (j : json) : bool :=
  match j with
  | JNull => false
  | JBool b => b
  | JNum n => negb (n =? 0)%Z
  | JStr s => negb (s =? "")
  | JArr l => match l with [] => false | _ => true end
  | JObj l => match l with [] => false | _ => true end
  end.

(** *** Dictionaries in insertion order *)

Fixpoint assoc_get {A} (k : string) (d : list (string * A)) : option A :=
  match d with
  | [] => None
  | (k', v) :: rest => if k' =? k then Some v else assoc_get k rest
  end.

(** [d[k] = v]: replaces the value in place, or appends a new key. *)
Fixpoint assoc_set {A} (k : string) (v : A) (d : list (string * A))
  : list (string * A) :=
  match d with
  | [] => [(k, v)]
  | (k', v') :: rest =>
      if k' =? k then (k', v) :: rest else (k', v') :: assoc_set k v rest
  end.

Fixpoint assoc_remove {A} (k : string) (d : list (string * A))
  : list (string * A) :=
  match d with
  | [] => []
  | (k', v') :: rest =>
      if k' =? k then assoc_remove k rest else (k', v') :: assoc_remove k rest
  end.

(** [obj.get(k, default)]: only dictionaries have [.get]. *)
Definition dict_get (obj : json) (k : string) (default : json) : res json :=
  match obj with
  | JObj d => Val (match assoc_get k d with Some v => v | None => default end)
  | _ => Err AttributeError
  end.

(** [obj[k]] with a string key. *)
Definition getitem (obj : json) (k : string) : res json :=
  match obj with
  | JObj d => match assoc_get k d with
              | Some v => Val v
              | None => Err (KeyError k)
              end
  | _ => Err TypeError
  end.

(** [obj[k] = v] with a string key. *)
Definition setitem (obj : json) (k : string) (v : json) : res json :=
  match obj with
  | JObj d => Val (JObj (assoc_set k v d))
  | _ => Err TypeError
  end.

(** *** Strings *)

Definition lower_ascii (c : ascii) : ascii :=
  let n := nat_of_ascii c in
  if ((65 <=? n) && (n <=? 90))%nat then ascii_of_nat (n + 32) else c.

(** [str.lower] on ASCII text. *)
Fixpoint lower (s : string) : string :=
  match s with
  | EmptyString => EmptyString
  | String c t => String (lower_ascii c) (lower t)
  end.

(** [needle in hay] for strings. *)
Fixpoint contains (needle hay : string) : bool :=
  if String.prefix needle hay then true
  else match hay with
       | EmptyString => false
       | String _ t => contains needle t
       end.

Definition startswith (s p : string) : bool := String.prefix p s.

Definition is_space (c : ascii) : bool :=
  let n := nat_of_ascii c in
  (((9 <=? n) && (n <=? 13)) || (n =? 32) || ((28 <=? n) && (n <=? 31)))%nat.

Fixpoint lstrip (s : string) : string :=
  match s with
  | String c t => if is_space c then lstrip t else s
  | EmptyString => EmptyString
  end.

Fixpoint rstrip (s : string) : string :=
  match s with
  | EmptyString => EmptyString
  | String c t =>
      match rstrip t with
      | EmptyString => if is_space c then EmptyString else String c EmptyString
      | t' => String c t'
      end
  end.

(** [str.strip()]. *)
Definition strip (s : string) : string := rstrip (lstrip s).

(** [s.split(sep)] for a one-character separator. *)
Fixpoint split_on (sep : ascii) (s : string) : list string :=
  match s with
  | EmptyString => [EmptyString]
  | String c t =>
      if Ascii.eqb c sep then EmptyString :: split_on sep t
      else match split_on sep t with
           | [] => [String c EmptyString]
           | w :: ws => String c w :: ws
           end
  end.

(** [sep.join(parts)]. *)
Fixpoint join (sep : string) (parts : list string) : string :=
  match parts with
  | [] => ""
  | [p] => p
  | p :: rest => p +++ sep +++ join sep rest
  end.

Definition mem_string (s : string) (l : list string) : bool :=
  existsb (String.eqb s) l.

Definition nl : string := String (ascii_of_nat 10) EmptyString.
Definition dquote : string := String (ascii_of_nat 34) EmptyString.

(** Decimal rendering of a natural number, and the [{n:02d}] format. *)
Definition str_of_nat (n : nat) : string :=
  NilEmpty.string_of_uint (Nat.to_uint n).

Definition format_02d (n : nat) : string :=
  if (n <? 10)%nat then "0" +++ str_of_nat n else str_of_nat n.

(** The characters of a string, as Python iterates over it. *)
Fixpoint chars (s : string) : list string :=
  match s with
  | EmptyString => []
  | String c t => String c EmptyString :: chars t
  end.

End Py.
Export Py.

(* ------------------------------------------------------------------ *)
(** ** The project directory *)

Module FS.

(** A regular file is kept under the two views the scripts take of it:
    [text] is what [read_text] returns, [doc] is what [json.load] returns
    ([None] when the bytes are not valid JSON).  [json.dump] writes both. *)
Inductive node : Type :=
| File (text : string) (doc : option json)
| Dir (entries : list (string * node)).

Definition path := list string.

(** Components of a relative path, as [pathlib] keeps them: empty and
    ["."] components are dropped.  No path of the scripts contains
    [".."]. *)
Definition split_path (s : string) : path :=
  filter (fun c => negb ((c =? "") || (c =? "."))) (split_on "/" s).

Fixpoint lookup (p : path) (n : node) : option node :=
  match p with
  | [] => Some n
  | c :: rest =>
      match n with
      | Dir es => match assoc_get c es with
                  | Some child => lookup rest child
                  | None => None
                  end
      | File _ _ => None
      end
  end.

(** [Path.exists()], [Path.is_dir()], [Path.is_file()]. *)
Definition exists_ (p : path) (n : node) : bool :=
  match lookup p n with Some _ => true | None => false end.

Definition is_dir (p : path) (n : node) : bool :=
  match lookup p n with Some (Dir _) => true | _ => false end.

Definition is_file (p : path) (n : node) : bool :=
  match lookup p n with Some (File _ _) => true | _ => false end.

(** [Path.read_text()]. *)
Definition read_text (p : path) (n : node) : res string :=
  match lookup p n with
  | Some (File t _) => Val t
  | Some (Dir _) => Err IsADirectoryError
  | None => Err FileNotFoundError
  end.

(** [json.load(open(p))]. *)
Definition read_json (p : path) (n : node) : res json :=
  match lookup p n with
  | Some (File _ (Some j)) => Val j
  | Some (File _ None) => Err JSONDecodeError
  | Some (Dir _) => Err IsADirectoryError
  | None => Err FileNotFoundError
  end.

(** [open(p, "w")] followed by a write: the parent must be an existing
    directory and [p] must not be a directory. *)
Fixpoint write (p : path) (f : node) (n : node) : res node :=
  match p with
  | [] => match n with
          | Dir _ => Err IsADirectoryError
          | File _ _ => Val f
          end
  | c :: rest =>
      match n with
      | File _ _ => Err NotADirectoryError
      | Dir es =>
          match assoc_get c es with
          | Some child =>
              try child' <- write rest f child;
              Val (Dir (assoc_set c child' es))
          | None =>
              match rest with
              | [] => Val (Dir (assoc_set c f es))
              | _ :: _ => Err FileNotFoundError
              end
          end
      end
  end.

(** A fresh chain of directories [p], empty at the end. *)
Fixpoint fresh_dirs (p : path) : node :=
  match p with
  | [] => Dir []
  | c :: rest => Dir [(c, fresh_dirs rest)]
  end.

(** [Path.mkdir(parents=True, exist_ok=True)]. *)
Fixpoint mkdir_p (p : path) (n : node) : res node :=
  match p with
  | [] => match n with
          | Dir _ => Val n
          | File _ _ => Err FileExistsError
          end
  | c :: rest =>
      match n with
      | File _ _ => Err NotADirectoryError
      | Dir es =>
          match assoc_get c es with
          | Some child =>
              try child' <- mkdir_p rest child;
              Val (Dir (assoc_set c child' es))
          | None => Val (Dir (assoc_set c (fresh_dirs rest) es))
          end
      end
  end.

(** [Path.mkdir(exist_ok=True)]: the parent must exist. *)
Fixpoint mkdir (p : path) (n : node) : res node :=
  match p with
  | [] => match n with
          | Dir _ => Val n
          | File _ _ => Err FileExistsError
          end
  | c :: rest =>
      match n with
      | File _ _ => Err NotADirectoryError
      | Dir es =>
          match assoc_get c es with
          | Some child =>
              try child' <- mkdir rest child;
              Val (Dir (assoc_set c child' es))
          | None =>
              match rest with
              | [] => Val (Dir (assoc_set c (Dir []) es))
              | _ :: _ => Err FileNotFoundError
              end
          end
      end
  end.

(** [shutil.rmtree(p)] of an existing directory. *)
Fixpoint rmtree (p : path) (n : node) : res node :=
  match p with
  | [] => Err ValueError
  | c :: rest =>
      match n with
      | File _ _ => Err NotADirectoryError
      | Dir es =>
          match assoc_get c es with
          | None => Err FileNotFoundError
          | Some child =>
              match rest with
              | [] => match child with
                      | Dir _ => Val (Dir (assoc_remove c es))
                      | File _ _ => Err NotADirectoryError
                      end
              | _ :: _ =>
                  try child' <- rmtree rest child;
                  Val (Dir (assoc_set c child' es))
              end
          end
      end
  end.

(** Every entry below a directory, as a path relative to it. *)
Fixpoint descendants (n : node) : list path :=
  match n with
  | File _ _ => []
  | Dir es =>
      flat_map (fun e => [fst e] :: map (cons (fst e)) (descendants (snd e)))
               es
  end.

(** Shell-style matching of one name: [*] is any run of characters, [?]
    any single character, everything else stands for itself.  (Bracket
    classes are not used by any pattern of the registry.) *)
Fixpoint fnmatch (pat name : string) : bool :=
  match pat with
  | EmptyString => match name with EmptyString => true | _ => false end
  | String c pat' =>
      if Ascii.eqb c "*" then
        (fix star (s : string) : bool :=
           fnmatch pat' s ||
           match s with
           | EmptyString => false
           | String _ t => star t
           end) name
      else
        match name with
        | EmptyString => false
        | String d t =>
            (Ascii.eqb c "?" || Ascii.eqb c d) && fnmatch pat' t
        end
  end.

Fixpoint match_components (pats : list string) (p : path) : bool :=
  match pats, p with
  | [], [] => true
  | pat :: pats', c :: p' => fnmatch pat c && match_components pats' p'
  | _, _ => false
  end.

(** The pattern matches the last components of the path. *)
Definition match_suffix (pats : list string) (p : path) : bool :=
  (length pats <=? length p)%nat &&
  match_components pats (skipn (length p - length pats) p).

(** [list(project_dir.rglob(pattern))]: the entries at any depth whose
    last components match the pattern.  An empty pattern is rejected with
    [ValueError], an absolute one with [NotImplementedError]. *)
Definition rglob (pattern : string) (n : node) : res (list path) :=
  if startswith pattern "/" then Err NotImplementedError
  else match split_path pattern with
       | [] => Err ValueError
       | pats => Val (filter (match_suffix pats) (descendants n))
       end.

End FS.

(* ------------------------------------------------------------------ *)
(** ** scripts/gate_validator.py *)

Module GateValidator.
Import FS.

Definition PHASE_ORDER : list string :=
  ["requirements"; "development"; "cicd"; "testing"; "uat"; "deployment";
   "monitoring"].

(** Arguments bound to a checker in the registry: a string or a list of
    strings. *)
Inductive arg : Type :=
| AStr (s : string)
| AList (l : list string).

(** A registry tuple [(description, checker_name, *checker_args)]. *)
Record criterion : Type := Criterion {
  description : string;
  checker_name : string;
  checker_args : list arg
}.

Definition crit1 (d n a : string) : criterion := Criterion d n [AStr a].
Definition crit2 (d n a b : string) : criterion :=
  Criterion d n [AStr a; AStr b].
Definition critl (d n : string) (l : list string) : criterion :=
  Criterion d n [AList l].

Definition GATE_CRITERIA : list (string * list criterion) :=
  [ ("requirements",
     [ crit1 "PRD document exists" "check_file" "docs/prd.md";
       crit1 "User stories defined" "check_file_pattern" "docs/user-stories*";
       crit2 "Acceptance criteria present in PRD" "check_content"
             "docs/prd.md" "acceptance criteria";
       crit1 "Technical feasibility assessed" "check_file_pattern"
             "docs/tech-feasibility*";
       crit2 "Stakeholder sign-off recorded" "check_state_note"
             "requirements" "sign-off" ]);
    ("development",
     [ crit1 "Git repository initialized" "check_dir" ".git";
       crit1 "Branching strategy documented" "check_file_pattern"
             "*git*workflow*";
       crit1 "Pre-commit hooks configured" "check_file"
             ".pre-commit-config.yaml";
       crit1 "README exists" "check_file" "README.md";
       crit2 "Code review process defined" "check_state_note"
             "development" "code review" ]);
    ("cicd",
     [ critl "CI pipeline config exists" "check_any_file"
             [".github/workflows/*.yml"; ".github/workflows/*.yaml";
              ".gitlab-ci.yml"; "Jenkinsfile"];
       crit2 "Build step defined" "check_state_note" "cicd" "build";
       crit2 "Test step in pipeline" "check_state_note" "cicd" "test";
       critl "Linting configured" "check_any_file"
             [".eslintrc*"; ".flake8"; "pyproject.toml"; ".prettierrc*"];
       crit2 "Pipeline tested end-to-end" "check_state_note"
             "cicd" "verified" ]);
    ("testing",
     [ crit1 "Unit tests exist" "check_file_pattern" "*test*";
       critl "Test coverage report generated" "check_any_file"
             ["coverage/*"; "htmlcov/*"; ".coverage"];
       crit2 "Coverage meets threshold (>80%)" "check_state_note"
             "testing" "coverage";
       crit2 "Critical bugs resolved" "check_state_note"
             "testing" "bugs resolved";
       crit1 "Test plan documented" "check_file_pattern" "docs/test-plan*" ]);
    ("uat",
     [ crit1 "UAT plan created" "check_file_pattern" "docs/uat*";
       crit2 "UAT environment available" "check_state_note"
             "uat" "environment";
       crit2 "All UAT cases executed" "check_state_note" "uat" "executed";
       crit2 "Stakeholder sign-off obtained" "check_state_note"
             "uat" "sign-off" ]);
    ("deployment",
     [ crit1 "Deployment runbook exists" "check_file_pattern"
             "docs/deployment*";
       crit1 "Rollback procedure documented" "check_file_pattern"
             "docs/rollback*";
       crit1 "Smoke tests defined" "check_file_pattern" "*smoke*";
       crit2 "Deployment strategy chosen" "check_state_note"
             "deployment" "strategy";
       crit2 "Pre-deployment checklist complete" "check_state_note"
             "deployment" "checklist" ]);
    ("monitoring",
     [ crit2 "Monitoring configured" "check_state_note"
             "monitoring" "configured";
       crit1 "Alerts defined" "check_file_pattern" "*alert*";
       crit1 "SLOs documented" "check_file_pattern" "docs/slo*";
       crit1 "Incident response plan exists" "check_file_pattern"
             "docs/incident*";
       crit2 "Dashboard created" "check_state_note"
             "monitoring" "dashboard" ]) ].

Definition state_path : path := [".sdlc"; "state.json"].

(** [load_state]: [None] (here [JNull]) when the document is absent. *)
Definition load_state (project_dir : node) : res json :=
  if negb (exists_ state_path project_dir) then Val JNull
  else read_json state_path project_dir.

(** [project_dir / x] needs a string. *)
Definition as_path (a : arg) : res path :=
  match a with
  | AStr s => Val (split_path s)
  | AList _ => Err TypeError
  end.

(** [x.lower()] needs a string. *)
Definition arg_lower (a : arg) : res string :=
  match a with
  | AStr s => Val (lower s)
  | AList _ => Err AttributeError
  end.

Definition check_file (project_dir : node) (filepath : arg) : res bool :=
  try p <- as_path filepath;
  Val (exists_ p project_dir).

Definition check_dir (project_dir : node) (dirpath : arg) : res bool :=
  try p <- as_path dirpath;
  Val (is_dir p project_dir).

Definition check_pattern (project_dir : node) (pattern : string) : res bool :=
  try found <- rglob pattern project_dir;
  Val (0 <? length found)%nat.

Definition check_file_pattern (project_dir : node) (pattern : arg)
  : res bool :=
  match pattern with
  | AStr s => check_pattern project_dir s
  | AList _ => Err TypeError
  end.

(** [any(...)] over a list stops at the first hit. *)
Fixpoint any_pattern (project_dir : node) (patterns : list string)
  : res bool :=
  match patterns with
  | [] => Val false
  | p :: rest =>
      try hit <- check_pattern project_dir p;
      if hit then Val true else any_pattern project_dir rest
  end.

Definition check_any_file (project_dir : node) (patterns : arg) : res bool :=
  match patterns with
  | AList l => any_pattern project_dir l
  | AStr s => any_pattern project_dir (chars s)
  end.

Definition check_content (project_dir : node) (filepath keyword : arg)
  : res bool :=
  try target <- as_path filepath;
  if negb (exists_ target project_dir) then Val false
  else
    try kw <- arg_lower keyword;
    try text <- read_text target project_dir;
    Val (contains kw (lower text)).

(** What [for note in notes] iterates over. *)
Definition iterate (notes : json) : res (list json) :=
  match notes with
  | JArr l => Val l
  | JObj d => Val (map (fun kv => JStr (fst kv)) d)
  | JStr s => Val (map JStr (chars s))
  | _ => Err TypeError
  end.

Fixpoint any_note (keyword : arg) (notes : list json) : res bool :=
  match notes with
  | [] => Val false
  | note :: rest =>
      try kw <- arg_lower keyword;
      match note with
      | JStr s => if contains kw (lower s) then Val true
                  else any_note keyword rest
      | _ => Err AttributeError
      end
  end.

Definition check_state_note (project_dir : node) (phase keyword : arg)
  : res bool :=
  try state <- load_state project_dir;
  if negb (truthy state) then Val false
  else
    try phases <- dict_get state "phases" (JObj []);
    try phase_data <-
      match phases, phase with
      | JObj _, AList _ => Err TypeError
      | _, AList _ => Err AttributeError
      | _, AStr p => dict_get phases p (JObj [])
      end;
    try notes <- dict_get phase_data "notes" (JArr []);
    try items <- iterate notes;
    any_note keyword items.

(** [args[i]]. *)
Definition arg_at (args : list arg) (i : nat) : res arg :=
  match nth_error args i with
  | Some a => Val a
  | None => Err IndexError
  end.

Definition checker : Type := node -> list arg -> res bool.

Definition CHECKERS : list (string * checker) :=
  [ ("check_file",
     fun pd args => try a <- arg_at args 0; check_file pd a);
    ("check_dir",
     fun pd args => try a <- arg_at args 0; check_dir pd a);
    ("check_file_pattern",
     fun pd args => try a <- arg_at args 0; check_file_pattern pd a);
    ("check_any_file",
     fun pd args => try a <- arg_at args 0; check_any_file pd a);
    ("check_content",
     fun pd args =>
       try a <- arg_at args 0; try b <- arg_at args 1; check_content pd a b);
    ("check_state_note",
     fun pd args =>
       try a <- arg_at args 0; try b <- arg_at args 1;
       check_state_note pd a b) ].

(** The test of the loop body:
    [checker and checker(project_dir, checker_args)]. *)
Definition criterion_met (project_dir : node) (c : criterion) : res bool :=
  match assoc_get (checker_name c) CHECKERS with
  | Some chk => chk project_dir (checker_args c)
  | None => Val false
  end.

(** The [for criterion in criteria] loop with its two accumulators. *)
Fixpoint validate_criteria (criteria : list criterion) (project_dir : node)
         (passed failed : list string) : res (list string * list string) :=
  match criteria with
  | [] => Val (passed, failed)
  | c :: rest =>
      try ok <- criterion_met project_dir c;
      if ok
      then validate_criteria rest project_dir (passed ++ [description c]) failed
      else validate_criteria rest project_dir passed (failed ++ [description c])
  end.

Definition phase_criteria (phase : string) : list criterion :=
  match assoc_get phase GATE_CRITERIA with
  | Some l => l
  | None => []
  end.

Definition validate_phase (phase : string) (project_dir : node)
  : res (list string * list string) :=
  validate_criteria (phase_criteria phase) project_dir [] [].

(** *** Reporting and the command line *)

Inductive gate_status : Type := PASSED | BLOCKED.

(** [index_of x l] is [l.index(x)]. *)
Fixpoint index_of (x : string) (l : list string) : option nat :=
  match l with
  | [] => None
  | y :: rest => if y =? x then Some 0%nat
                 else option_map S (index_of x rest)
  end.

(** What [print_gate_result] shows: the two lists, the status line and,
    on a pass, the phase the project may advance to. *)
Record gate_report : Type := GateReport {
  report_phase : string;
  report_passed : list string;
  report_failed : list string;
  report_status : gate_status;
  report_next : option string
}.

Definition print_gate_result (phase : string) (passed failed : list string)
  : res gate_report :=
  match failed with
  | _ :: _ => Val (GateReport phase passed failed BLOCKED None)
  | [] =>
      match index_of phase PHASE_ORDER with
      | None => Err ValueError
      | Some idx =>
          Val (GateReport phase passed failed PASSED
                 (if (idx <? length PHASE_ORDER - 1)%nat
                  then nth_error PHASE_ORDER (idx + 1) else None))
      end
  end.

Inductive output : Type :=
| Report (r : gate_report)
| JsonResults (all_results : list (string * (list string * list string))).

(** Parsed command line: [--phase], [--all], [--json]. *)
Record cli_args : Type := CliArgs {
  arg_phase : option string;
  arg_all : bool;
  arg_json_output : bool
}.

(** A finished process: a normal exit with its status, or an uncaught
    exception (the interpreter prints a traceback and exits with 1). *)
Inductive process : Type :=
| Exit (code : Z) (out : list output)
| Traceback (e : exn) (out : list output).

Definition exit_status (p : process) : Z :=
  match p with
  | Exit code _ => code
  | Traceback _ _ => 1%Z
  end.

Definition stdout (p : process) : list output :=
  match p with
  | Exit _ out => out
  | Traceback _ out => out
  end.

(** Argument checks of [main]: [--phase] must be one of the phase ids and
    one of [--phase], [--all] must be given; the result is
    [phases_to_check]. *)
Definition phases_to_check (args : cli_args) : option (list string) :=
  match arg_phase args with
  | Some p =>
      if mem_string p PHASE_ORDER
      then Some (if arg_all args then PHASE_ORDER else [p])
      else None
  | None => if arg_all args then Some PHASE_ORDER else None
  end.

(** The [for phase in phases_to_check] loop of [main]. *)
Fixpoint check_phases (json_output : bool) (phases : list string)
         (project_dir : node)
         (all_results : list (string * (list string * list string)))
         (overall_pass : bool) (out : list output) : process :=
  match phases with
  | [] =>
      let out := if json_output then out ++ [JsonResults all_results]
                 else out in
      Exit (if overall_pass then 0 else 1) out
  | phase :: rest =>
      match validate_phase phase project_dir with
      | Err e => Traceback e out
      | Val (passed, failed) =>
          let all_results := assoc_set phase (passed, failed) all_results in
          let overall_pass :=
            match failed with [] => overall_pass | _ :: _ => false end in
          if json_output
          then check_phases json_output rest project_dir all_results
                            overall_pass out
          else
            match print_gate_result phase passed failed with
            | Err e => Traceback e out
            | Val r => check_phases json_output rest project_dir all_results
                                    overall_pass (out ++ [Report r])
            end
      end
  end.

Definition main (args : cli_args) (project_dir : node) : process :=
  match phases_to_check args with
  | None => Exit 2 []
  | Some phases =>
      check_phases (arg_json_output args) phases project_dir [] true []
  end.

End GateValidator.

(* ------------------------------------------------------------------ *)
(** ** Text written by [json.dump(_, indent=2)] *)

Module JsonText.

Definition hex_digit (n : nat) : string :=
  match n with
  | 10 => "a" | 11 => "b" | 12 => "c" | 13 => "d" | 14 => "e" | 15 => "f"
  | _ => str_of_nat n
  end%nat.

(** One character of a string literal (ASCII text: everything outside
    the printable range is written as a [\u00xx] escape). *)
Definition escape_char (c : ascii) : string :=
  let n := nat_of_ascii c in
  if (n =? 34)%nat then "\" +++ dquote
  else if (n =? 92)%nat then "\\"
  else if (n =? 10)%nat then "\n"
  else if (n =? 13)%nat then "\r"
  else if (n =? 9)%nat then "\t"
  else if (n =? 8)%nat then "\b"
  else if (n =? 12)%nat then "\f"
  else if ((n <? 32) || (126 <? n))%nat
       then "\u00" +++ hex_digit (n / 16) +++ hex_digit (n mod 16)
       else String c EmptyString.

Fixpoint escape (s : string) : string :=
  match s with
  | EmptyString => EmptyString
  | String c t => escape_char c +++ escape t
  end.

Definition quote (s : string) : string := dquote +++ escape s +++ dquote.

Fixpoint indent (level : nat) : string :=
  match level with
  | O => ""
  | S l => "  " +++ indent l
  end.

Fixpoint dumps (level : nat) (j : json) : string :=
  match j with
  | JNull => "null"
  | JBool true => "true"
  | JBool false => "false"
  | JNum n => NilZero.string_of_int (Z.to_int n)
  | JStr s => quote s
  | JArr [] => "[]"
  | JArr items =>
      "[" +++ nl +++
      join ("," +++ nl)
           (map (fun x => indent (S level) +++ dumps (S level) x) items)
      +++ nl +++ indent level +++ "]"
  | JObj [] => "{}"
  | JObj fields =>
      "{" +++ nl +++
      join ("," +++ nl)
           (map (fun kv => indent (S level) +++ quote (fst kv) +++ ": "
                           +++ dumps (S level) (snd kv)) fields)
      +++ nl +++ indent level +++ "}"
  end.

(** The file [json.dump(value, f, indent=2)] leaves behind. *)
Definition json_file (value : json) : FS.node :=
  FS.File (dumps 0 value) (Some value).

End JsonText.

(* ------------------------------------------------------------------ *)
(** ** scripts/init_sdlc.py *)

Module InitSdlc.
Import FS.

Record phase_info : Type := PhaseInfo {
  phase_id : string;
  phase_name : string;
  phase_order : nat
}.

Definition PHASES : list phase_info :=
  [ PhaseInfo "requirements" "Requirements & Planning" 1;
    PhaseInfo "development" "Development & Git" 2;
    PhaseInfo "cicd" "CI/CD Pipeline" 3;
    PhaseInfo "testing" "QA Testing" 4;
    PhaseInfo "uat" "User Acceptance Testing" 5;
    PhaseInfo "deployment" "Production Deployment" 6;
    PhaseInfo "monitoring" "Monitoring & SRE" 7 ].

Definition TEMPLATE_MAP : list (string * string) :=
  [ ("react-vite", "react-typescript-vite");
    ("react-typescript-vite", "react-typescript-vite");
    ("fastapi", "python-fastapi");
    ("python-fastapi", "python-fastapi");
    ("nextjs", "nextjs-typescript");
    ("nextjs-typescript", "nextjs-typescript") ].

Definition pending_record : json :=
  JObj [ ("status", JStr "pending");
         ("started_at", JNull);
         ("completed_at", JNull);
         ("gate_passed", JBool false);
         ("notes", JArr []) ].

(** [create_state]; [now] is the UTC timestamp read from the clock. *)
Definition create_state (now project_name : string) : json :=
  JObj [ ("project_name", JStr project_name);
         ("created_at", JStr now);
         ("updated_at", JStr now);
         ("current_phase", JStr "requirements");
         ("phases",
          JObj (map (fun ph => (phase_id ph, pending_record)) PHASES)) ].

Definition checklists : list (string * list string) :=
  [ ("requirements",
     [ "Define project vision and goals";
       "Identify stakeholders";
       "Write PRD (Product Requirements Document)";
       "Create user stories with acceptance criteria";
       "Assess technical feasibility";
       "Define success metrics";
       "Get stakeholder sign-off" ]);
    ("development",
     [ "Set up repository and branching strategy";
       "Configure development environment";
       "Install pre-commit hooks";
       "Implement core features";
       "Write inline documentation";
       "Conduct code reviews";
       "Maintain clean commit history" ]);
    ("cicd",
     [ "Set up CI pipeline (build + test)";
       "Configure linting and formatting checks";
       "Add security scanning (SAST)";
       "Set up artifact publishing";
       "Configure branch protection rules";
       "Add deployment pipeline";
       "Test pipeline end-to-end" ]);
    ("testing",
     [ "Write unit tests (>80% coverage target)";
       "Write integration tests for critical paths";
       "Set up E2E test suite";
       "Run regression tests";
       "Conduct performance/load testing";
       "Fix all critical/high severity bugs";
       "Generate test coverage report" ]);
    ("uat",
     [ "Create UAT test plan from user stories";
       "Set up UAT environment";
       "Brief stakeholders on testing scope";
       "Execute UAT test cases";
       "Collect and triage feedback";
       "Fix blocking issues";
       "Obtain stakeholder sign-off" ]);
    ("deployment",
     [ "Create deployment runbook";
       "Set up feature flags (if applicable)";
       "Configure deployment strategy";
       "Run pre-deployment smoke tests";
       "Execute deployment";
       "Run post-deployment smoke tests";
       "Verify rollback procedure works" ]);
    ("monitoring",
     [ "Set up application metrics";
       "Configure log aggregation";
       "Define SLOs and error budgets";
       "Create alerting rules";
       "Set up dashboards";
       "Document incident response procedure";
       "Conduct game day / chaos testing" ]) ].

Definition create_phase_checklist (phase : phase_info) : string :=
  let items := match assoc_get (phase_id phase) checklists with
               | Some l => l
               | None => []
               end in
  let lines :=
    ("# Phase " +++ str_of_nat (phase_order phase) +++ ": "
       +++ phase_name phase +++ nl)
    :: map (fun item => "- [ ] " +++ item) items in
  join nl lines +++ nl.

(** A markdown checklist is not a JSON document. *)
Definition text_file (content : string) : node := File content None.

Definition checklist_path (phase : phase_info) : path :=
  [".sdlc"; "phases";
   format_02d (phase_order phase) +++ "-" +++ phase_id phase +++ ".md"].

(** [for phase in PHASES: checklist_path.write_text(...)]. *)
Fixpoint write_checklists (phases : list phase_info) (output_dir : node)
  : res node :=
  match phases with
  | [] => Val output_dir
  | phase :: rest =>
      try d <- write (checklist_path phase)
                     (text_file (create_phase_checklist phase)) output_dir;
      write_checklists rest d
  end.

(** [for item in template_dir.iterdir()]: entries already present in the
    target are skipped, the others are copied with their subtree. *)
Fixpoint copy_template (items : list (string * node)) (output_dir : node)
  : res node :=
  match items with
  | [] => Val output_dir
  | (name, item) :: rest =>
      if exists_ [name] output_dir then copy_template rest output_dir
      else
        match output_dir with
        | Dir es => copy_template rest (Dir (assoc_set name item es))
        | File _ _ => Err NotADirectoryError
        end
  end.

(** [init_sdlc]; [templates_dir] is the content of the repository's
    [templates/] directory.  The result is the directory as the call
    leaves it, with the exception that ended it, if any. *)
Definition init_sdlc (templates_dir : node) (now : string)
           (project_name : string) (output_dir : node)
           (template : option string) : node * option exn :=
  if exists_ [".sdlc"] output_dir then (output_dir, Some (SystemExit 1))
  else
    match mkdir_p [".sdlc"] output_dir with
    | Err e => (output_dir, Some e)
    | Val d1 =>
    match mkdir [".sdlc"; "phases"] d1 with
    | Err e => (d1, Some e)
    | Val d2 =>
    match write [".sdlc"; "state.json"]
                (JsonText.json_file (create_state now project_name)) d2 with
    | Err e => (d2, Some e)
    | Val d3 =>
    match write_checklists PHASES d3 with
    | Err e => (d3, Some e)
    | Val d4 =>
        match template with
        | None => (d4, None)
        | Some t =>
            if t =? "" then (d4, None)
            else
              match assoc_get t TEMPLATE_MAP with
              | None => (d4, Some (SystemExit 1))
              | Some template_name =>
                  match lookup [template_name] templates_dir with
                  | None => (d4, Some (SystemExit 1))
                  | Some (File _ _) => (d4, Some NotADirectoryError)
                  | Some (Dir items) =>
                      match copy_template items d4 with
                      | Err e => (d4, Some e)
                      | Val d5 => (d5, None)
                      end
                  end
              end
        end
    end end end end.

(** [main] after argument parsing: [--force] removes an existing
    [.sdlc] first. *)
Definition main (templates_dir : node) (now : string)
           (project_name : string) (template : option string) (force : bool)
           (output_dir : node) : node * option exn :=
  match mkdir_p [] output_dir with
  | Err e => (output_dir, Some e)
  | Val d0 =>
      if force && exists_ [".sdlc"] d0 then
        match rmtree [".sdlc"] d0 with
        | Err e => (d0, Some e)
        | Val d1 => init_sdlc templates_dir now project_name d1 template
        end
      else init_sdlc templates_dir now project_name d0 template
  end.

(** A directory holding nothing but what [init_sdlc] has just written. *)
Definition fresh_project (now project_name : string) : node :=
  fst (init_sdlc (Dir []) now project_name (Dir []) None).

End InitSdlc.

(* ------------------------------------------------------------------ *)
(** ** scripts/orchestrate.py *)

Module Orchestrate.
Import FS.

Definition PHASE_ORDER : list string :=
  ["requirements"; "development"; "cicd"; "testing"; "uat"; "deployment";
   "monitoring"].

Definition PHASE_NAMES : list (string * string) :=
  [ ("requirements", "Phase 1: Requirements & Planning");
    ("development", "Phase 2: Development & Git");
    ("cicd", "Phase 3: CI/CD Pipeline");
    ("testing", "Phase 4: QA Testing");
    ("uat", "Phase 5: User Acceptance Testing");
    ("deployment", "Phase 6: Production Deployment");
    ("monitoring", "Phase 7: Monitoring & SRE") ].

(** What the orchestrator shows on the terminal, as far as it tells what
    was done: banners, sections, commands and file writes.  Purely
    informative lines are not recorded. *)
Inductive event : Type :=
| EvHeader (text : string)
| EvPhaseHeader (phase : string)
| EvSection (text : string)
| EvGateCheck (phase : string)
| EvSkip (phase : string)
| EvRun (cmd : list string)
| EvDryRun (cmd : list string)
| EvDryRunGate (phase : string)
| EvWouldWrite (p : path)
| EvCreated (p : path)
| EvGatePassed (phase : string)
| EvGateBlocked (phase : string)
| EvSkipGate (phase : string)
| EvStateSaved
| EvInitFailed
| EvCorruptState.

(** The run-time state of the script: the project directory, the [state]
    and [ctx] dictionaries of [main], the lines still to be typed by the
    operator, the terminal output and the number of clock readings. *)
Record world : Type := World {
  w_fs : node;
  w_state : json;
  w_ctx : list (string * json);
  w_in : list string;
  w_out : list event;
  w_time : nat
}.

Inductive outcome (A : Type) : Type :=
| Ok (a : A) (w : world)
| Raise (e : exn) (w : world).
Arguments Ok {A} a w.
Arguments Raise {A} e w.

Definition final {A} (o : outcome A) : world :=
  match o with
  | Ok _ w => w
  | Raise _ w => w
  end.

Definition M (A : Type) : Type := world -> outcome A.

Definition ret {A} (a : A) : M A := fun w => Ok a w.

Definition bind {A B} (m : M A) (f : A -> M B) : M B :=
  fun w => match m w with
           | Ok a w' => f a w'
           | Raise e w' => Raise e w'
           end.

Definition raise {A} (e : exn) : M A := fun w => Raise e w.

Notation "x <- m ;; k" := (bind m (fun x => k))
  (at level 61, m at next level, right associativity).
Notation "m ;; k" := (bind m (fun _ => k))
  (at level 61, right associativity).

(** A pure fallible step. *)
Definition lift {A} (r : res A) : M A :=
  match r with
  | Val a => ret a
  | Err e => raise e
  end.

Definition when (b : bool) (m : M unit) : M unit :=
  if b then m else ret tt.

Definition emit (ev : event) : M unit :=
  fun w => Ok tt (World (w_fs w) (w_state w) (w_ctx w) (w_in w)
                        (w_out w ++ [ev]) (w_time w)).

Definition get_fs : M node := fun w => Ok (w_fs w) w.
Definition put_fs (d : node) : M unit :=
  fun w => Ok tt (World d (w_state w) (w_ctx w) (w_in w) (w_out w) (w_time w)).

Definition get_state : M json := fun w => Ok (w_state w) w.
Definition put_state (s : json) : M unit :=
  fun w => Ok tt (World (w_fs w) s (w_ctx w) (w_in w) (w_out w) (w_time w)).

Definition get_ctx : M (list (string * json)) := fun w => Ok (w_ctx w) w.
Definition put_ctx (c : list (string * json)) : M unit :=
  fun w => Ok tt (World (w_fs w) (w_state w) c (w_in w) (w_out w) (w_time w)).

(** [input()]: the next line typed, [EOFError] when there is none. *)
Definition input : M string :=
  fun w => match w_in w with
           | [] => Raise EOFError w
           | line :: rest =>
               Ok line (World (w_fs w) (w_state w) (w_ctx w) rest (w_out w)
                              (w_time w))
           end.

Definition path_exists (p : string) : M bool :=
  d <- get_fs ;; ret (exists_ (split_path p) d).

(** [ctx[k]], [ctx[k] = v], [ctx.get(k, default)]. *)
Definition ctx_item (k : string) : M json :=
  c <- get_ctx ;;
  match assoc_get k c with
  | Some v => ret v
  | None => raise (KeyError k)
  end.

Definition ctx_set (k : string) (v : json) : M unit :=
  c <- get_ctx ;; put_ctx (assoc_set k v c).

Definition ctx_get (k : string) (default : json) : M json :=
  c <- get_ctx ;;
  ret (match assoc_get k c with Some v => v | None => default end).

(** *** State management *)

Definition state_path : path := [".sdlc"; "state.json"].

Definition load_state (project_dir : node) : res json :=
  if negb (exists_ state_path project_dir) then Val JNull
  else read_json state_path project_dir.

(** [state["phases"][phase]]. *)
Definition phase_record (state : json) (phase : string) : res json :=
  try phases <- getitem state "phases";
  getitem phases phase.

(** [state["phases"][phase][key] = value]. *)
Definition set_phase_field (state : json) (phase key : string) (value : json)
  : res json :=
  try phases <- getitem state "phases";
  try record <- getitem phases phase;
  try record' <- setitem record key value;
  try phases' <- setitem phases phase record';
  setitem state "phases" phases'.

(** [note not in notes] followed by [notes.append(note)], for whatever
    value sits under ["notes"]. *)
Definition append_note (notes : json) (note : string) : res json :=
  match notes with
  | JArr l =>
      if existsb (fun x => match x with JStr s => s =? note | _ => false end) l
      then Val notes
      else Val (JArr (l ++ [JStr note]))
  | JStr s => if contains note s then Val notes else Err AttributeError
  | JObj d => match assoc_get note d with
              | Some _ => Val notes
              | None => Err AttributeError
              end
  | _ => Err TypeError
  end.

(** [add_note] on a state value. *)
Definition add_note_to (state : json) (phase note : string) : res json :=
  try phases <- getitem state "phases";
  try record <- getitem phases phase;
  match record with
  | JObj fields =>
      let notes := match assoc_get "notes" fields with
                   | Some n => n
                   | None => JArr []
                   end in
      try notes' <- append_note notes note;
      try record' <- setitem record "notes" notes';
      try phases' <- setitem phases phase record';
      setitem state "phases" phases'
  | _ => Err AttributeError
  end.

(** The surroundings of the script: the clock, the processes started by
    [subprocess.run] (their effect on the project directory and their
    return code), the repository the script is installed in, Python's
    [str()] of a value that is not a string, the SLO page (its numbers are
    floating point), and the paths as they are printed. *)
Record env : Type := Env {
  clock : nat -> string;
  subprocess_run : list string -> node -> res (node * Z);
  repo : node;
  py_repr : json -> string;
  slo_template : string -> json -> res string;
  sys_executable : string;
  REPO_ROOT : string;
  project_dir : string
}.

Section Orchestrator.

Variable E : env.

Definition py_str (j : json) : string :=
  match j with
  | JStr s => s
  | _ => py_repr E j
  end.

Definition in_repo (rel : string) : string := REPO_ROOT E +++ "/" +++ rel.
Definition in_project (rel : string) : string := project_dir E +++ "/" +++ rel.
Definition SCRIPT_DIR : string := in_repo "scripts".

(** [datetime.now(timezone.utc).isoformat()]. *)
Definition utc_now : M string :=
  fun w => Ok (clock E (w_time w))
              (World (w_fs w) (w_state w) (w_ctx w) (w_in w) (w_out w)
                     (S (w_time w))).

Definition save_state (dry_run : bool) : M unit :=
  if dry_run then ret tt
  else
    now <- utc_now ;;
    state <- get_state ;;
    state' <- lift (setitem state "updated_at" (JStr now)) ;;
    put_state state' ;;
    d <- get_fs ;;
    d' <- lift (write state_path (JsonText.json_file state') d) ;;
    put_fs d'.

Definition add_note (phase note : string) : M unit :=
  state <- get_state ;;
  state' <- lift (add_note_to state phase note) ;;
  put_state state'.

Definition set_field (phase key : string) (value : json) : M unit :=
  state <- get_state ;;
  state' <- lift (set_phase_field state phase key value) ;;
  put_state state'.

Definition set_current_phase (phase : string) : M unit :=
  state <- get_state ;;
  state' <- lift (setitem state "current_phase" (JStr phase)) ;;
  put_state state'.

Definition mark_started (phase : string) : M unit :=
  set_field phase "status" (JStr "in_progress") ;;
  now <- utc_now ;;
  set_field phase "started_at" (JStr now) ;;
  set_current_phase phase.

Definition mark_completed (phase : string) : M unit :=
  set_field phase "status" (JStr "completed") ;;
  now <- utc_now ;;
  set_field phase "completed_at" (JStr now) ;;
  set_field phase "gate_passed" (JBool true).

(** *** Utilities *)

(** [prompt]: the default may be any value handed over by the caller. *)
Definition prompt_value (question : string) (default : json) : M json :=
  line <- input ;;
  let answer := strip line in
  ret (if answer =? "" then default else JStr answer).

Definition prompt (question default : string) : M string :=
  line <- input ;;
  let answer := strip line in
  ret (if answer =? "" then default else answer).

Definition prompt_yn (question default : string) : M bool :=
  answer <- prompt (question +++ " (y/n)") default ;;
  ret (startswith (lower answer) "y").

(** The [while True] loop of [prompt_choice] over the lines typed. *)
Fixpoint choose (choices : list string) (default : string)
         (lines : list string) : option (string * list string) :=
  match lines with
  | [] => None
  | line :: rest =>
      let answer := if strip line =? "" then default else strip line in
      if mem_string answer choices then Some (answer, rest)
      else choose choices default rest
  end.

Definition prompt_choice (question : string) (choices : list string)
           (default : string) : M string :=
  fun w => match choose choices default (w_in w) with
           | Some (answer, rest) =>
               Ok answer (World (w_fs w) (w_state w) (w_ctx w) rest (w_out w)
                                (w_time w))
           | None =>
               Raise EOFError (World (w_fs w) (w_state w) (w_ctx w) []
                                     (w_out w) (w_time w))
           end.

(** [' '.join(cmd)] needs strings. *)
Fixpoint cmd_strings (cmd : list json) : res (list string) :=
  match cmd with
  | [] => Val []
  | JStr s :: rest => try l <- cmd_strings rest; Val (s :: l)
  | _ :: _ => Err TypeError
  end.

Definition run_script (cmd : list json) (dry_run : bool) : M Z :=
  words <- lift (cmd_strings cmd) ;;
  if dry_run then emit (EvDryRun words) ;; ret 0%Z
  else
    emit (EvRun words) ;;
    d <- get_fs ;;
    r <- lift (subprocess_run E words d) ;;
    put_fs (fst r) ;;
    ret (snd r).

(** [run_gate] starts [gate_validator.py --phase phase] on the project
    directory and looks at its return code. *)
Definition run_gate (phase : string) (dry_run : bool) : M bool :=
  if dry_run then emit (EvDryRunGate phase) ;; ret true
  else
    d <- get_fs ;;
    let result :=
      GateValidator.main (GateValidator.CliArgs (Some phase) false false) d in
    ret (GateValidator.exit_status result =? 0)%Z.

Definition parent (p : path) : path := removelast p.

Definition write_file (p : string) (content : node) (dry_run : bool)
  : M unit :=
  if dry_run then emit (EvWouldWrite (split_path p))
  else
    d <- get_fs ;;
    d1 <- lift (mkdir_p (parent (split_path p)) d) ;;
    d2 <- lift (write (split_path p) content d1) ;;
    put_fs d2 ;;
    emit (EvCreated (split_path p)).

Definition header (text : string) : M unit := emit (EvHeader text).
Definition section (text : string) : M unit := emit (EvSection text).

(** [Path.mkdir(parents=True, exist_ok=True)] on the project directory. *)
Definition make_dirs (p : string) : M unit :=
  d <- get_fs ;;
  d' <- lift (mkdir_p (split_path p) d) ;;
  put_fs d'.

(** A file of the repository, with both of its views. *)
Definition repo_file (rel : string) : M node :=
  match lookup (split_path rel) (repo E) with
  | Some (File t j) => ret (File t j)
  | Some (Dir _) => raise IsADirectoryError
  | None => raise FileNotFoundError
  end.

Definition text_file (content : string) : node := File content None.

(** *** Embedded templates *)

Definition GIT_WORKFLOW_TEMPLATE : string :=
"# Git Workflow

## Branching Strategy: GitHub Flow

- **main** — production-ready code, protected branch
- **feature/<ticket>-<description>** — feature work
- **fix/<ticket>-<description>** — bug fixes

## Process

1. Create feature branch from main
2. Make small commits following Conventional Commits
3. Open PR, request review (min 1 approval)
4. CI must pass before merge
5. Squash-merge to main
6. Delete feature branch

## Branch Protection

- Require PR reviews before merge
- Require CI status checks to pass
- No force pushes to main
".

Definition PRECOMMIT_PLACEHOLDER : string :=
"# Pre-commit configuration
# Hooks installed via setup_git_hooks.sh (see .git/hooks/)
repos: []
".

Definition ROLLBACK_TEMPLATE : string :=
"# Rollback Procedure

## When to Roll Back

- Error rate exceeds 2x baseline within 15 minutes of deploy
- P95 latency exceeds 2x baseline
- Critical functionality broken (health check fails)
- Customer-reported data loss or corruption

## Rollback Steps

1. **Announce** rollback in team channel
2. **Execute** rollback per deployment strategy (see deployment-runbook.md)
3. **Verify** service health after rollback
4. **Notify** team that rollback is complete
5. **Investigate** root cause before reattempting deploy

## Strategy-Specific Rollback

- **Canary**: Shift 100% traffic back to stable version
- **Blue-Green**: Switch load balancer to previous environment
- **Rolling**: `kubectl rollout undo deployment/<service>`
".

Definition q (s : string) : string := dquote +++ s +++ dquote.

Definition smoke_entry (name path : string) : string :=
  "  {" +++ nl +++
  "    " +++ q "name" +++ ": " +++ q name +++ "," +++ nl +++
  "    " +++ q "method" +++ ": " +++ q "GET" +++ "," +++ nl +++
  "    " +++ q "path" +++ ": " +++ q path +++ "," +++ nl +++
  "    " +++ q "expected_status" +++ ": 200" +++ nl +++
  "  }".

(** The smoke-test configuration is a JSON document: the file carries its
    text and the value the text stands for. *)
Definition SMOKE_TESTS_TEMPLATE : node :=
  File ("[" +++ nl +++ smoke_entry "Health check" "/health" +++ "," +++ nl
            +++ smoke_entry "Root endpoint" "/" +++ nl +++ "]" +++ nl)
       (Some (JArr
          [ JObj [("name", JStr "Health check"); ("method", JStr "GET");
                  ("path", JStr "/health"); ("expected_status", JNum 200)];
            JObj [("name", JStr "Root endpoint"); ("method", JStr "GET");
                  ("path", JStr "/"); ("expected_status", JNum 200)] ])).

Definition ESLINT_CONFIG : node :=
  File ("{" +++ q "extends" +++ ": [" +++ q "eslint:recommended" +++ "]}"
            +++ nl)
       (Some (JObj [("extends", JArr [JStr "eslint:recommended"])])).

Definition GOLANGCI_CONFIG : node :=
  text_file ("run:" +++ nl +++ "  timeout: 5m" +++ nl).

(** *** Phase handlers *)

Definition run_requirements (dry_run : bool) : M unit :=
  section "Step 1: Gather Requirements" ;;
  gather <- prompt_yn "Run interactive requirement gathering?" "y" ;;
  when gather
    (name <- ctx_item "project_name" ;;
     run_script
       [ JStr (sys_executable E);
         JStr (in_repo "skills/01-requirements/scripts/gather_requirements.py");
         JStr "--project"; name;
         JStr "--output"; JStr (in_project "docs/requirements.md") ]
       dry_run ;;
     ret tt) ;;
  section "Step 2: PRD (Product Requirements Document)" ;;
  prd <- path_exists "docs/prd.md" ;;
  (if negb prd && negb dry_run then
     copy <- prompt_yn "Copy PRD template to docs/prd.md?" "y" ;;
     when copy
       (template <-
          repo_file "skills/01-requirements/reference/prd_template.md" ;;
        write_file "docs/prd.md" template dry_run ;;
        input ;;
        ret tt)
   else if prd then
     run_script
       [ JStr (sys_executable E);
         JStr (in_repo "skills/01-requirements/scripts/validate_prd.py");
         JStr "--file"; JStr (in_project "docs/prd.md") ]
       dry_run ;;
     ret tt
   else ret tt) ;;
  section "Step 3: User Stories" ;;
  stories <- path_exists "docs/user-stories.md" ;;
  (if negb stories && negb dry_run then
     create <- prompt_yn "Create a placeholder user stories file?" "y" ;;
     when create
       (write_file "docs/user-stories.md"
          (text_file
             ("# User Stories" +++ nl +++ nl +++
              "<!-- Add user stories in format: As a [user], I want [action] so that [benefit] -->"
              +++ nl +++ nl))
          dry_run ;;
        input ;;
        ret tt)
   else ret tt) ;;
  section "Step 4: Technical Feasibility" ;;
  feasibility <- path_exists "docs/tech-feasibility.md" ;;
  (if negb feasibility && negb dry_run then
     create <- prompt_yn "Create technical feasibility document?" "y" ;;
     when create
       (write_file "docs/tech-feasibility.md"
          (text_file
             ("# Technical Feasibility Assessment" +++ nl +++ nl +++
              "## Architecture" +++ nl +++ nl +++
              "## Tech Stack" +++ nl +++ nl +++
              "## Risks & Mitigations" +++ nl +++ nl +++
              "## Conclusion" +++ nl +++ nl +++
              "Feasible: YES / NO" +++ nl))
          dry_run ;;
        input ;;
        ret tt)
   else ret tt) ;;
  section "Step 5: Stakeholder Sign-off" ;;
  signed <- prompt_yn "Has a stakeholder signed off on the requirements?" "n" ;;
  when signed
    (add_note "requirements" "Stakeholder sign-off recorded for requirements").

Definition run_development (dry_run : bool) : M unit :=
  section "Step 1: Project Setup" ;;
  project_type <- prompt_choice "Project type?" ["node"; "python"; "go"]
                                "python" ;;
  ctx_set "project_type" (JStr project_type) ;;
  scaffold <- prompt_yn "Run project scaffolding?" "y" ;;
  when scaffold
    (name <- ctx_item "project_name" ;;
     ptype <- ctx_item "project_type" ;;
     run_script
       [ JStr "bash";
         JStr (in_repo "skills/02-development/scripts/init_project.sh");
         JStr "--name"; name; JStr "--type"; ptype ]
       dry_run ;;
     ret tt) ;;
  section "Step 2: Git Initialization" ;;
  git_dir <- path_exists ".git" ;;
  (if negb git_dir && negb dry_run then
     run_script [JStr "git"; JStr "init"] dry_run ;; ret tt
   else ret tt) ;;
  section "Step 3: Git Hooks" ;;
  hooks <- prompt_yn "Set up pre-commit hooks (lint, format, secrets scan)?"
                     "y" ;;
  when hooks
    (run_script
       [ JStr "bash";
         JStr (in_repo "skills/02-development/scripts/setup_git_hooks.sh") ]
       dry_run ;;
     ret tt) ;;
  precommit <- path_exists ".pre-commit-config.yaml" ;;
  when (negb precommit)
    (write_file ".pre-commit-config.yaml" (text_file PRECOMMIT_PLACEHOLDER)
                dry_run) ;;
  section "Step 4: Branching Strategy" ;;
  workflow <- path_exists "docs/git-workflow.md" ;;
  when (negb workflow)
    (write_file "docs/git-workflow.md" (text_file GIT_WORKFLOW_TEMPLATE)
                dry_run) ;;
  section "Step 5: README" ;;
  readme <- path_exists "README.md" ;;
  when (negb readme)
    (name <- ctx_item "project_name" ;;
     write_file "README.md"
       (text_file ("# " +++ py_str name +++ nl +++ nl +++
                   "## Setup" +++ nl +++ nl +++
                   "## Development" +++ nl +++ nl +++
                   "## Testing" +++ nl))
       dry_run) ;;
  section "Step 6: Code Review Process" ;;
  reviewed <- prompt_yn "Has the code review process been defined?" "n" ;;
  when reviewed
    (add_note "development"
              "Code review process defined and initial review completed").

(** [lint_configs.get(project_type, ("pyproject.toml", None))]. *)
Definition lint_config (project_type : json) : string * option node :=
  match project_type with
  | JStr "node" => (".eslintrc.json", Some ESLINT_CONFIG)
  | JStr "go" => (".golangci.yml", Some GOLANGCI_CONFIG)
  | _ => ("pyproject.toml", None)
  end.

(** One Docker asset: copied when the repository has it and the project
    does not. *)
Definition copy_asset (src dst : string) (dry_run : bool) : M unit :=
  d <- get_fs ;;
  if exists_ (split_path src) (repo E) && negb (exists_ (split_path dst) d) then
    content <- (if negb dry_run then repo_file src else ret (text_file "")) ;;
    write_file dst content dry_run
  else ret tt.

Definition run_cicd (dry_run : bool) : M unit :=
  section "Step 1: Choose CI Platform" ;;
  platform <- prompt_choice "CI platform?" ["github"; "gitlab"; "jenkins"]
                            "github" ;;
  ctx_set "ci_platform" (JStr platform) ;;
  section "Step 2: Generate Pipeline" ;;
  project_type <- ctx_get "project_type" (JStr "python") ;;
  generate <- prompt_yn "Generate CI pipeline configuration?" "y" ;;
  when generate
    (ci <- ctx_item "ci_platform" ;;
     run_script
       [ JStr (sys_executable E);
         JStr (in_repo "skills/03-cicd/scripts/generate_pipeline.py");
         JStr "--platform"; ci; JStr "--type"; project_type ]
       dry_run ;;
     add_note "cicd" "Build step defined in CI pipeline" ;;
     add_note "cicd" "Test step configured in CI pipeline") ;;
  section "Step 3: Linting Configuration" ;;
  (let (config_name, config_content) := lint_config project_type in
   present <- path_exists config_name ;;
   match config_content with
   | Some content =>
       when (negb present) (write_file config_name content dry_run)
   | None => ret tt
   end) ;;
  section "Step 4: Docker (optional)" ;;
  docker <- prompt_yn "Set up Docker configuration?" "n" ;;
  when docker
    (let docker_src :=
       match project_type with
       | JStr "node" => "Dockerfile.node"
       | _ => "Dockerfile.python"
       end in
     copy_asset ("skills/03-cicd/assets/docker/" +++ docker_src)
                "Dockerfile" dry_run ;;
     copy_asset "skills/03-cicd/assets/docker/docker-compose.yml"
                "docker-compose.yml" dry_run) ;;
  section "Step 5: Pipeline Verification" ;;
  verified <- prompt_yn "Has the pipeline been tested end-to-end?" "n" ;;
  when verified (add_note "cicd" "Pipeline verified end-to-end").

Definition run_testing (dry_run : bool) : M unit :=
  section "Step 1: Generate Test Plan" ;;
  prd <- path_exists "docs/prd.md" ;;
  plan <- (if prd then prompt_yn "Generate test plan from PRD?" "y"
           else ret false) ;;
  (if plan then
     run_script
       [ JStr (sys_executable E);
         JStr (in_repo "skills/04-testing/scripts/test_planner.py");
         JStr "--prd"; JStr (in_project "docs/prd.md");
         JStr "--output"; JStr (in_project "docs/test-plan.md") ]
       dry_run ;;
     ret tt
   else if negb prd then
     test_plan <- path_exists "docs/test-plan.md" ;;
     when (negb test_plan)
       (write_file "docs/test-plan.md"
          (text_file ("# Test Plan" +++ nl +++ nl +++
                      "## Unit Tests" +++ nl +++ nl +++
                      "## Integration Tests" +++ nl +++ nl +++
                      "## E2E Tests" +++ nl))
          dry_run)
   else ret tt) ;;
  section "Step 2: Write & Run Tests" ;;
  tests_dir <- path_exists "tests" ;;
  (if negb tests_dir && negb dry_run then
     make_dirs "tests" ;;
     write_file "tests/test_placeholder.py"
       (text_file ("# Add your tests here" +++ nl +++
                   "def test_placeholder():" +++ nl +++
                   "    assert True" +++ nl))
       dry_run
   else ret tt) ;;
  section "Step 3: Coverage Analysis" ;;
  coverage_path <- prompt "Path to coverage report (leave blank to skip)" "" ;;
  (if negb (coverage_path =? "") then
     threshold <- prompt "Coverage threshold (%)" "80" ;;
     run_script
       [ JStr (sys_executable E);
         JStr (in_repo "skills/04-testing/scripts/coverage_analyzer.py");
         JStr "--report"; JStr coverage_path;
         JStr "--threshold"; JStr threshold ]
       dry_run ;;
     ret tt
   else
     coverage_dir <- path_exists "coverage" ;;
     when (negb coverage_dir)
       (make_dirs "coverage" ;;
        write_file "coverage/placeholder.txt"
          (text_file
             ("# Run your test suite with coverage to generate a real report"
              +++ nl))
          dry_run)) ;;
  section "Step 4: Coverage Threshold" ;;
  covered <- prompt_yn "Does test coverage meet the threshold (>=80%)?" "n" ;;
  when covered (add_note "testing" "Coverage meets threshold of 80%") ;;
  section "Step 5: Bug Resolution" ;;
  resolved <- prompt_yn "Are all critical/high-severity bugs resolved?" "n" ;;
  when resolved (add_note "testing" "All critical bugs resolved").

Definition run_uat (dry_run : bool) : M unit :=
  section "Step 1: Generate UAT Plan" ;;
  prd <- path_exists "docs/prd.md" ;;
  plan <- (if prd then prompt_yn "Generate UAT plan from PRD?" "y"
           else ret false) ;;
  (if plan then
     run_script
       [ JStr (sys_executable E);
         JStr (in_repo "skills/05-uat/scripts/generate_uat_plan.py");
         JStr "--prd"; JStr (in_project "docs/prd.md");
         JStr "--output"; JStr (in_project "docs/uat-plan.md") ]
       dry_run ;;
     ret tt
   else
     uat_plan <- path_exists "docs/uat-plan.md" ;;
     when (negb uat_plan)
       (write_file "docs/uat-plan.md"
          (text_file ("# UAT Plan" +++ nl +++ nl +++
                      "## Test Cases" +++ nl +++ nl +++
                      "## Sign-off" +++ nl))
          dry_run)) ;;
  section "Step 2: UAT Environment" ;;
  available <- prompt_yn "Is the UAT environment available and configured?"
                         "n" ;;
  when available (add_note "uat" "UAT environment available and configured") ;;
  section "Step 3: Execute UAT" ;;
  executed <- prompt_yn "Have all UAT test cases been executed?" "n" ;;
  when executed (add_note "uat" "All UAT test cases executed successfully") ;;
  section "Step 4: Stakeholder Sign-off" ;;
  signed <- prompt_yn "Has the stakeholder signed off on UAT?" "n" ;;
  when signed (add_note "uat" "Stakeholder sign-off obtained for UAT").

Definition run_deployment (dry_run : bool) : M unit :=
  section "Step 1: Deployment Strategy" ;;
  strategy <- prompt_choice "Deployment strategy?"
                            ["canary"; "blue-green"; "rolling"] "canary" ;;
  ctx_set "deploy_strategy" (JStr strategy) ;;
  default_name <- ctx_get "project_name" (JStr "my-service") ;;
  service_name <- prompt_value "Service name" default_name ;;
  ctx_set "service_name" service_name ;;
  env <- prompt_choice "Target environment?" ["staging"; "production"]
                       "production" ;;
  section "Step 2: Generate Deployment Runbook" ;;
  runbook <- prompt_yn "Generate deployment runbook?" "y" ;;
  when runbook
    (strat <- ctx_item "deploy_strategy" ;;
     service <- ctx_item "service_name" ;;
     run_script
       [ JStr (sys_executable E);
         JStr (in_repo "skills/06-deployment/scripts/deployment_plan.py");
         JStr "--strategy"; strat;
         JStr "--service-name"; service;
         JStr "--env"; JStr env;
         JStr "--output"; JStr (in_project "docs/deployment-runbook.md") ]
       dry_run ;;
     strat' <- ctx_item "deploy_strategy" ;;
     add_note "deployment" ("Deployment strategy: " +++ py_str strat')) ;;
  section "Step 3: Rollback Procedure" ;;
  rollback <- path_exists "docs/rollback-procedure.md" ;;
  when (negb rollback)
    (write_file "docs/rollback-procedure.md" (text_file ROLLBACK_TEMPLATE)
                dry_run) ;;
  section "Step 4: Smoke Tests" ;;
  smoke <- path_exists "smoke-tests.json" ;;
  when (negb smoke)
    (write_file "smoke-tests.json" SMOKE_TESTS_TEMPLATE dry_run) ;;
  app_url <- prompt "Application URL for smoke tests (leave blank to skip)"
                    "" ;;
  when (negb (app_url =? ""))
    (run_script
       [ JStr (sys_executable E);
         JStr (in_repo "skills/06-deployment/scripts/smoke_test.py");
         JStr "--url"; JStr app_url;
         JStr "--config"; JStr (in_project "smoke-tests.json") ]
       dry_run ;;
     ret tt) ;;
  section "Step 5: Pre-Deployment Checklist" ;;
  complete <- prompt_yn "Is the pre-deployment checklist complete?" "n" ;;
  when complete (add_note "deployment" "Pre-deployment checklist complete").

Definition run_monitoring (dry_run : bool) : M unit :=
  section "Step 1: Define SLOs" ;;
  slo_target <- prompt "SLO availability target (%)" "99.9" ;;
  ctx_set "slo_target" (JStr slo_target) ;;
  fallback <- ctx_get "project_name" (JStr "my-service") ;;
  service <- ctx_get "service_name" fallback ;;
  slo <- path_exists "docs/slo-definition.md" ;;
  when (negb slo)
    (page <- lift (slo_template E slo_target service) ;;
     write_file "docs/slo-definition.md" (text_file page) dry_run) ;;
  section "Step 2: Generate Alert Rules" ;;
  alerts <- prompt_yn "Generate alert rules from SLOs?" "y" ;;
  when alerts
    (run_script
       [ JStr (sys_executable E);
         JStr (in_repo "skills/07-monitoring/scripts/alert_generator.py");
         JStr "--slo"; JStr slo_target;
         JStr "--service"; service;
         JStr "--output"; JStr (in_project "alerts") ]
       dry_run ;;
     ret tt) ;;
  section "Step 3: Incident Response Plan" ;;
  incident <- prompt_yn "Generate incident response template?" "y" ;;
  when incident
    (run_script
       [ JStr (sys_executable E);
         JStr (in_repo "skills/07-monitoring/scripts/incident_report.py");
         JStr "--incident"; JStr "Template incident for runbook";
         JStr "--severity"; JStr "P2";
         JStr "--service"; service;
         JStr "--output"; JStr (in_project "docs/incidents") ]
       dry_run ;;
     ret tt) ;;
  response <- path_exists "docs/incident-response.md" ;;
  when (negb response)
    (write_file "docs/incident-response.md"
       (text_file
          ("# Incident Response Plan — " +++ py_str service +++ nl +++ nl +++
           "See docs/incidents/ for templates." +++ nl +++
           "See reference: skills/07-monitoring/reference/incident_response.md"
           +++ nl))
       dry_run) ;;
  section "Step 4: Monitoring Setup" ;;
  configured <- prompt_yn "Has monitoring been configured?" "n" ;;
  when configured
    (add_note "monitoring" ("Monitoring configured for " +++ py_str service)) ;;
  section "Step 5: Dashboard" ;;
  dashboard <- prompt_yn "Has a dashboard been created?" "n" ;;
  when dashboard
    (add_note "monitoring" ("Dashboard created for " +++ py_str service)).

Definition PHASE_HANDLERS : list (string * (bool -> M unit)) :=
  [ ("requirements", run_requirements);
    ("development", run_development);
    ("cicd", run_cicd);
    ("testing", run_testing);
    ("uat", run_uat);
    ("deployment", run_deployment);
    ("monitoring", run_monitoring) ].

(** *** Main orchestration loop *)

Record cli_args : Type := CliArgs {
  arg_start_from : option string;
  arg_dry_run : bool
}.

(** The [while not gate_passed] loop.  Every round that does not end the
    loop reads at least one line, so the number of lines left bounds the
    number of rounds. *)
Fixpoint gate_loop (rounds : nat) (phase : string) (dry_run : bool)
  : M unit :=
  match rounds with
  | O => raise Unfinished
  | S rounds' =>
      emit (EvGateCheck phase) ;;
      gate_passed <- run_gate phase dry_run ;;
      if gate_passed then
        emit (EvGatePassed phase) ;;
        mark_completed phase ;;
        save_state dry_run
      else
        emit (EvGateBlocked phase) ;;
        action <- prompt_choice "What would you like to do?"
                                ["retry"; "fix"; "skip"; "quit"] "retry" ;;
        if action =? "quit" then
          emit EvStateSaved ;;
          save_state dry_run ;;
          raise (SystemExit 0)
        else if action =? "skip" then
          emit (EvSkipGate phase) ;;
          mark_completed phase ;;
          save_state dry_run
        else if action =? "fix" then
          input ;;
          gate_loop rounds' phase dry_run
        else gate_loop rounds' phase dry_run
  end.

Definition gate_check (phase : string) (dry_run : bool) : M unit :=
  fun w => gate_loop (S (length (w_in w))) phase dry_run w.

(** [status == "completed" and gate_passed] on a phase record. *)
Definition already_completed (phase_data : json) : res bool :=
  try status <- dict_get phase_data "status" JNull;
  match status with
  | JStr s =>
      if s =? "completed"
      then try passed <- dict_get phase_data "gate_passed" JNull;
           Val (truthy passed)
      else Val false
  | _ => Val false
  end.

(** The body of [for idx in range(start_idx, len(PHASE_ORDER))]. *)
Definition walk_phase (dry_run : bool) (idx : nat) (phase : string)
  : M unit :=
  state <- get_state ;;
  phase_data <- lift (phase_record state phase) ;;
  completed <- lift (already_completed phase_data) ;;
  if completed then emit (EvSkip phase)
  else
    emit (EvPhaseHeader phase) ;;
    mark_started phase ;;
    save_state dry_run ;;
    match assoc_get phase PHASE_HANDLERS with
    | None => raise (KeyError phase)
    | Some handler =>
        handler dry_run ;;
        save_state dry_run ;;
        gate_check phase dry_run ;;
        if (idx + 1 <? length PHASE_ORDER)%nat then
          match nth_error PHASE_ORDER (idx + 1) with
          | Some next => set_current_phase next ;; save_state dry_run
          | None => raise IndexError
          end
        else ret tt
    end.

Fixpoint walk (dry_run : bool) (idx : nat) (phases : list string) : M unit :=
  match phases with
  | [] => ret tt
  | phase :: rest =>
      walk_phase dry_run idx phase ;;
      walk dry_run (S idx) rest
  end.

(** The state [main] makes up in a dry run of a project without one. *)
Definition synthetic_state (project_name : string) : json :=
  JObj [ ("project_name", JStr project_name);
         ("current_phase", JStr "requirements");
         ("phases",
          JObj (map (fun p =>
                       (p, JObj [ ("status", JStr "pending");
                                  ("gate_passed", JBool false);
                                  ("notes", JArr []);
                                  ("started_at", JNull);
                                  ("completed_at", JNull) ]))
                    PHASE_ORDER)) ].

(** The one command that is a script of this repository with an effect
    on the project: [init_sdlc.py --project-name .. --output-dir ..].
    Its effect is that of [InitSdlc.main]; its return code is not looked
    at. *)
Definition run_init (project_name template : string) (dry_run : bool)
  : M unit :=
  let cmd :=
    [ sys_executable E; SCRIPT_DIR +++ "/init_sdlc.py";
      "--project-name"; project_name; "--output-dir"; project_dir E ]
    ++ (if template =? "none" then [] else ["--template"; template]) in
  if dry_run then emit (EvDryRun cmd)
  else
    emit (EvRun cmd) ;;
    now <- utc_now ;;
    d <- get_fs ;;
    let templates_dir := match lookup ["templates"] (repo E) with
                         | Some t => t
                         | None => Dir []
                         end in
    put_fs (fst (InitSdlc.main templates_dir now project_name
                   (if template =? "none" then None else Some template)
                   false d)).

Definition initialize (dry_run : bool) : M unit :=
  section "Project Initialization" ;;
  project_name <- prompt "Project name" "" ;;
  template <- prompt_choice "Use a project template?"
                            ["none"; "react-vite"; "fastapi"; "nextjs"]
                            "none" ;;
  run_init project_name template dry_run ;;
  d <- get_fs ;;
  state <- lift (load_state d) ;;
  match state with
  | JNull =>
      if dry_run then put_state (synthetic_state project_name)
      else emit EvInitFailed ;; raise (SystemExit 1)
  | _ => put_state state
  end.

Definition main (args : cli_args) : M unit :=
  let dry_run := arg_dry_run args in
  header "SDLC Orchestrator" ;;
  d <- get_fs ;;
  state <- lift (load_state d) ;;
  put_state state ;;
  match state with
  | JNull => initialize dry_run
  | _ => ret tt
  end ;;
  state <- get_state ;;
  project_name <- lift (dict_get state "project_name" (JStr "my-project")) ;;
  put_ctx [("project_name", project_name); ("project_type", JStr "python")] ;;
  start_phase <-
    match arg_start_from args with
    | Some p => ret (JStr p)
    | None => lift (dict_get state "current_phase" (JStr "requirements"))
    end ;;
  start_idx <-
    match start_phase with
    | JStr p => match GateValidator.index_of p PHASE_ORDER with
                | Some i => ret i
                | None => raise ValueError
                end
    | _ => raise ValueError
    end ;;
  walk dry_run start_idx (skipn start_idx PHASE_ORDER) ;;
  header "SDLC Complete!".

(** The [if __name__ == "__main__"] block: the exit status of the
    process and the world it leaves.  A corrupted state document is
    reported with the way to repair it; [--start-from] outside the phase
    ids is refused by the argument parser (status 2).  Interrupts from
    the keyboard are outside the model. *)
Definition usage_error (args : cli_args) : bool :=
  match arg_start_from args with
  | Some p => negb (mem_string p PHASE_ORDER)
  | None => false
  end.

Definition run (args : cli_args) (w : world) : Z * world :=
  if usage_error args then (2%Z, w)
  else
    match main args w with
    | Ok _ w' => (0%Z, w')
    | Raise (SystemExit code) w' => (code, w')
    | Raise JSONDecodeError w' => (1%Z, final (emit EvCorruptState w'))
    | Raise _ w' => (1%Z, w')
    end.

(** The world at the start of a run on a project directory, with the
    lines the operator is going to type. *)
Definition start (d : node) (lines : list string) : world :=
  World d JNull [] lines [] 0.

End Orchestrator.
End Orchestrate.

(* ------------------------------------------------------------------ *)
(** ** Statements about the scripts *)

Module Props.
Import FS GateValidator.

(** Whether a criterion counts as met: the checker is known, returns and
    says yes. *)
Definition met (project_dir : node) (c : criterion) : bool :=
  match criterion_met project_dir c with
  | Val b => b
  | Err _ => false
  end.

(** A phase passes its gate: [validate_phase] returns with nothing in the
    failed list. *)
Definition gate_passes (project_dir : node) (phase : string) : Prop :=
  exists passed, validate_phase phase project_dir = Val (passed, []).

Fixpoint nodupb (l : list string) : bool :=
  match l with
  | [] => true
  | x :: rest => negb (mem_string x rest) && nodupb rest
  end.


(** Project directories used as examples. *)
Definition empty_dir : node := Dir [].

Definition corrupt_project : node :=
  Dir [(".sdlc", Dir [("state.json", File "not json" None)])].

Definition pending_project : node :=
  Dir [(".sdlc",
        Dir [("state.json",
              JsonText.json_file (InitSdlc.create_state "2026-01-01T00:00:00+00:00" "Demo"))])].

Definition readme_is_a_directory : node :=
  Dir [("README.md", Dir [])].

End Props.

Module WalkProps.
Import FS Orchestrate.

(** Nothing on the terminal says that the phase was entered or gated. *)
Definition untouched (phase : string) (out : list event) : Prop :=
  ~ In (EvPhaseHeader phase) out /\ ~ In (EvGateCheck phase) out.

(** The record of the phase is the given one, and the phase is untouched
    so far. *)
Definition keeps (phase : string) (record : json) (w : world) : Prop :=
  phase_record (w_state w) phase = Val record /\ untouched phase (w_out w).

(** A computation that hands on [keeps], however it ends. *)
Definition preserves {A} (phase : string) (record : json) (m : M A) : Prop :=
  forall w, keeps phase record w -> keeps phase record (final (m w)).

(** An event that tells nothing about entering or gating a phase. *)
Definition neutral (ev : event) : Prop :=
  match ev with
  | EvPhaseHeader _ | EvGateCheck _ => False
  | _ => True
  end.

(** A computation that leaves the state dictionary and the terminal
    alone. *)
Definition silent {A} (m : M A) : Prop :=
  forall w, w_state (final (m w)) = w_state w /\
            w_out (final (m w)) = w_out w.

(** A computation that does not add to the lines to be typed and is not
    cut short. *)
Definition steady {A} (m : M A) : Prop :=
  forall w, match m w with
            | Ok _ w' => length (w_in w') <= length (w_in w)
            | Raise e w' => e <> Unfinished /\
                            length (w_in w') <= length (w_in w)
            end.

(** A computation that reads at least one line when it returns. *)
Definition consumes {A} (m : M A) : Prop :=
  forall w, match m w with
            | Ok _ w' => length (w_in w') < length (w_in w)
            | Raise e _ => e <> Unfinished
            end.

(** With fewer than [n] lines left, the computation is not cut short. *)
Definition finishes {A} (n : nat) (m : M A) : Prop :=
  forall w, length (w_in w) < n -> forall w', m w <> Raise Unfinished w'.

(** A fallible pure step that is not cut short. *)
Definition proper {A} (x : res A) : Prop := x <> Err Unfinished.

(** What a dry run may leave of a project directory [before]: the
    directory itself, or the directory with [coverage/] made in it. *)
Definition dry_frame (before after : node) : Prop :=
  after = before \/ mkdir_p ["coverage"] before = Val after.

(** A computation that stays within [dry_frame]. *)
Definition frames {A} (before : node) (m : M A) : Prop :=
  forall w, dry_frame before (w_fs w) ->
            dry_frame before (w_fs (final (m w))).

(** A computation that leaves the project directory alone. *)
Definition offline {A} (m : M A) : Prop :=
  forall w, w_fs (final (m w)) = w_fs w.

(** The world after one more line of output. *)
Definition printed (w : world) (ev : event) : world :=
  World (w_fs w) (w_state w) (w_ctx w) (w_in w) (w_out w ++ [ev]) (w_time w).

(** An environment in which nothing outside the script happens. *)
Definition quiet : env :=
  Env (fun n => "2026-01-01T00:00:0" +++ str_of_nat n +++ "+00:00")
      (fun _ d => Val (d, 0%Z))
      (Dir [])
      (fun _ => "")
      (fun _ _ => Val "# SLO Definition")
      "python3" "/opt/sdlc" "/work/demo".

(** A project whose requirements phase is closed and whose current phase
    is development. *)
Definition resumed_state : json :=
  JObj [ ("project_name", JStr "Demo");
         ("current_phase", JStr "development");
         ("phases",
          JObj [ ("requirements",
                  JObj [ ("status", JStr "completed");
                         ("gate_passed", JBool true);
                         ("notes", JArr []) ]);
                 ("development", InitSdlc.pending_record) ]) ].

Definition resumed_project : node :=
  Dir [(".sdlc", Dir [("state.json", JsonText.json_file resumed_state)])].

Definition initialized_dir : node := Dir [(".sdlc", Dir [])].

(** An operator who names the project and accepts every default. *)
Definition accept_defaults : list string := "Demo" :: repeat "" 18.

End WalkProps.

Module MoreProps.
Import FS.

(** *** Well-formed inputs of the validator *)




(** A pattern [rglob] accepts: relative and not empty. *)
Definition valid_pattern (pattern : string) : bool :=
  negb (startswith pattern "/") &&
  match split_path pattern with [] => false | _ => true end.

(** Some entry of the directory matches the pattern. *)
Definition has_match (d : node) (pattern : string) : bool :=
  (0 <? length (filter (match_suffix (split_path pattern)) (descendants d)))%nat.





(** *** What [init_sdlc] writes *)

(** The [.sdlc] directory of a project initialized at time [now]. *)
Definition sdlc_tree (now project_name : string) : node :=
  Dir [ ("phases",
         Dir (map (fun ph =>
                     (format_02d (InitSdlc.phase_order ph) +++ "-"
                        +++ InitSdlc.phase_id ph +++ ".md",
                      InitSdlc.text_file (InitSdlc.create_phase_checklist ph)))
                  InitSdlc.PHASES));
        ("state.json",
         JsonText.json_file (InitSdlc.create_state now project_name)) ].

(** A regular file with the given two views sits at the path. *)
Definition file_at (p : path) (text : string) (doc : option json) (d : node)
  : Prop :=
  lookup p d = Some (File text doc).

(** The answer [prompt_choice] takes from a line. *)
Definition answer (default line : string) : string :=
  if strip line =? "" then default else strip line.

(** *** Examples *)

Definition docs_prd_is_a_directory : node :=
  Dir [("docs", Dir [("prd.md", Dir [])])].

Definition old_project : node :=
  Dir [ ("README.md", File "# Old" None);
        (".sdlc", Dir [("state.json", JsonText.json_file WalkProps.resumed_state)]) ].

End MoreProps.

Module RunProps.
Import FS Orchestrate.

(** A computation that hands on a property of the state dictionary. *)
Definition upholds {A} (I : json -> Prop) (m : M A) : Prop :=
  forall w, I (w_state w) -> I (w_state (final (m w))).

(** A computation that leaves the state dictionary alone. *)
Definition still {A} (m : M A) : Prop :=
  forall w, w_state (final (m w)) = w_state w.

(** A computation that only adds to the terminal output. *)
Definition talks {A} (m : M A) : Prop :=
  forall w, exists more, w_out (final (m w)) = w_out w ++ more.

(** The state records the phase as completed with its gate passed. *)
Definition recorded_completed (state : json) (phase : string) : Prop :=
  exists r, phase_record state phase = Val r /\ already_completed r = Val true.

(** [state["phases"][phase].get("notes", [])]. *)
Definition phase_notes (state : json) (phase : string) : res json :=
  try record <- phase_record state phase;
  dict_get record "notes" (JArr []).

(** The same file (text and JSON value) sits at the path in both
    directories, or in neither. *)
Definition same_file (q : path) (d d' : node) : Prop :=
  forall t j, lookup q d' = Some (File t j) <-> lookup q d = Some (File t j).

(** The world with another project directory, state or input. *)
Definition with_fs (w : world) (d : node) : world :=
  World d (w_state w) (w_ctx w) (w_in w) (w_out w) (w_time w).

Definition with_state (w : world) (state : json) : world :=
  World (w_fs w) state (w_ctx w) (w_in w) (w_out w) (w_time w).

Definition with_input (w : world) (lines : list string) : world :=
  World (w_fs w) (w_state w) (w_ctx w) lines (w_out w) (w_time w).

Definition tick (w : world) : world :=
  World (w_fs w) (w_state w) (w_ctx w) (w_in w) (w_out w) (S (w_time w)).

(** The state holds the given record for the phase. *)
Definition has_record (phase : string) (record : json) (state : json) : Prop :=
  phase_record state phase = Val record.

(** A project with a state document and nothing else. *)
Definition blocked_project : node :=
  Dir [(".sdlc",
        Dir [("state.json", JsonText.json_file WalkProps.resumed_state)])].

End RunProps.

(* ------------------------------------------------------------------ *)
(** ** Facts about dictionaries and the project tree *)

Module DictFacts.

Lemma assoc_get_set_same {A} (k : string) (v : A) d :
  assoc_get k (assoc_set k v d) = Some v.
Proof.
  induction d as [|[k' v'] d IH]; simpl.
  - now rewrite String.eqb_refl.
  - destruct (k' =? k) eqn:Hk; simpl; rewrite Hk; auto.
Qed.

Lemma assoc_get_set_other {A} (k k' : string) (v : A) d :
  k <> k' -> assoc_get k (assoc_set k' v d) = assoc_get k d.
Proof.
  intros Hne. induction d as [|[k0 v0] d IH]; simpl.
  - destruct (k' =? k) eqn:Hk; auto.
    apply String.eqb_eq in Hk. congruence.
  - destruct (k0 =? k') eqn:Hk0; simpl.
    + apply String.eqb_eq in Hk0. subst k0.
      destruct (k' =? k) eqn:Hk; auto.
      apply String.eqb_eq in Hk. congruence.
    + destruct (k0 =? k); auto.
Qed.

Lemma assoc_get_In {A} (k : string) (v : A) d :
  assoc_get k d = Some v -> In (k, v) d.
Proof.
  induction d as [|[k' v'] d IH]; simpl; [discriminate|].
  destruct (k' =? k) eqn:Hk.
  - apply String.eqb_eq in Hk. intros [= ->]. left. now subst.
  - intros H. right. auto.
Qed.

Lemma mem_string_In (s : string) l : mem_string s l = true <-> In s l.
Proof.
  unfold mem_string. rewrite existsb_exists. split.
  - intros [x [Hin Heq]]. apply String.eqb_eq in Heq. now subst.
  - intros Hin. exists s. split; auto. apply String.eqb_refl.
Qed.

End DictFacts.

Module FSFacts.
Import FS DictFacts.

(** What has been written is what is found. *)
Lemma lookup_write (p : path) (f d d' : node) :
  write p f d = Val d' -> lookup p d' = Some f.
Proof.
  revert d d'. induction p as [|c rest IH]; intros d d'; simpl.
  - destruct d; [intros [= ->]; reflexivity | discriminate].
  - destruct d as [|es]; [discriminate|].
    destruct (assoc_get c es) as [child|] eqn:Hc.
    + destruct (write rest f child) as [child'|] eqn:Hw; simpl; [|discriminate].
      intros [= <-]. simpl. rewrite assoc_get_set_same. eauto.
    + destruct rest; [|discriminate].
      intros [= <-]. simpl. now rewrite assoc_get_set_same.
Qed.

End FSFacts.

(* ------------------------------------------------------------------ *)
(** ** The gate validator *)

Module GateFacts.
Import FS GateValidator Props DictFacts.

(** The loop appends to its two accumulators, in the order of the list:
    met criteria to the first, the others to the second. *)
Lemma validate_criteria_filter cs d :
  forall p f p' f',
    validate_criteria cs d p f = Val (p', f') ->
    p' = p ++ map description (filter (met d) cs) /\
    f' = f ++ map description (filter (fun c => negb (met d c)) cs).
Proof.
  induction cs as [|c cs IH]; intros p f p' f'; simpl.
  - intros [= <- <-]. now rewrite !app_nil_r.
  - intros H. destruct (criterion_met d c) as [b|e] eqn:Hc; [|discriminate].
    assert (Hm : met d c = b) by (unfold met; now rewrite Hc).
    simpl in H. rewrite Hm.
    destruct b; apply IH in H as [-> ->]; simpl;
      rewrite <- !app_assoc; auto.
Qed.

(** An exception of one criterion ends the whole loop. *)
Lemma validate_criteria_raises cs d :
  forall p f p' f',
    validate_criteria cs d p f = Val (p', f') ->
    forall c, In c cs -> exists b, criterion_met d c = Val b.
Proof.
  induction cs as [|c cs IH]; intros p f p' f' H c0 Hin; [destruct Hin|].
  simpl in H. destruct (criterion_met d c) as [b|e] eqn:Hc; [|discriminate].
  destruct Hin as [<-|Hin]; [eauto|].
  simpl in H. destruct b; eapply IH; eauto.
Qed.

Lemma nodupb_NoDup l : nodupb l = true -> NoDup l.
Proof.
  induction l as [|x l IH]; simpl; [constructor|].
  intros H. apply andb_prop in H as [Hx Hl]. constructor; auto.
  intros Hin. apply mem_string_In in Hin. now rewrite Hin in Hx.
Qed.

Lemma registry_descriptions_distinct phase :
  NoDup (map description (phase_criteria phase)).
Proof.
  unfold phase_criteria.
  destruct (assoc_get phase GATE_CRITERIA) as [cs|] eqn:Hp; [|constructor].
  apply assoc_get_In in Hp. simpl in Hp.
  repeat (destruct Hp as [Hp|Hp];
          [injection Hp as _ <-; apply nodupb_NoDup; reflexivity|]).
  destruct Hp.
Qed.

Lemma NoDup_map_injective {A B} (g : A -> B) l :
  NoDup (map g l) ->
  forall a b, In a l -> In b l -> g a = g b -> a = b.
Proof.
  induction l as [|x l IH]; simpl; intros Hnd a b Ha Hb Heq; [destruct Ha|].
  inversion Hnd as [|? ? Hx Hl]; subst.
  destruct Ha as [<-|Ha], Hb as [<-|Hb]; auto.
  - exfalso. apply Hx. rewrite Heq. now apply in_map.
  - exfalso. apply Hx. rewrite <- Heq. now apply in_map.
Qed.

Lemma filter_lengths {A} (g : A -> bool) l :
  length (filter g l) + length (filter (fun x => negb (g x)) l) = length l.
Proof.
  induction l as [|x l IH]; simpl; auto.
  destruct (g x); simpl; lia.
Qed.

(** C10: when [validate_phase] returns, its two lists split the criteria
    registered for the phase: the passed list holds the descriptions of
    the met criteria and the failed list those of the others, both in
    registry order; their lengths add up to the number of criteria, and
    the description of every criterion is in exactly one of the lists. *)
Theorem validate_phase_partitions (phase : string) (d : node)
        (passed failed : list string) :
  validate_phase phase d = Val (passed, failed) ->
  let cs := phase_criteria phase in
  passed = map description (filter (met d) cs) /\
  failed = map description (filter (fun c => negb (met d c)) cs) /\
  length passed + length failed = length cs /\
  forall c, In c cs ->
    (In (description c) passed \/ In (description c) failed) /\
    ~ (In (description c) passed /\ In (description c) failed).
Proof.
  intros H cs. unfold validate_phase in H. fold cs in H.
  apply validate_criteria_filter in H as [Hp Hf]. simpl in Hp, Hf.
  subst passed failed. repeat split.
  - rewrite !length_map. apply filter_lengths.
  - destruct (met d c) eqn:Hm.
    + left. apply in_map. apply filter_In. auto.
    + right. apply in_map. apply filter_In. rewrite Hm. auto.
  - intros [Hp Hf].
    apply in_map_iff in Hp as [a [Ha Hina]].
    apply in_map_iff in Hf as [b [Hb Hinb]].
    apply filter_In in Hina as [Hina Hma].
    apply filter_In in Hinb as [Hinb Hmb].
    assert (a = b) as ->.
    { eapply NoDup_map_injective; eauto using registry_descriptions_distinct.
      congruence. }
    rewrite Hma in Hmb. discriminate.
Qed.

Lemma validate_phase_partitions_witness :
  let d := InitSdlc.fresh_project "2026-01-01T00:00:00+00:00" "Demo" in
  validate_phase "testing" d =
    Val (["Unit tests exist"],
         ["Test coverage report generated"; "Coverage meets threshold (>80%)";
          "Critical bugs resolved"; "Test plan documented"]) /\
  length ["Unit tests exist"] + 4 = length (phase_criteria "testing").
Proof.
  split; [vm_compute; reflexivity|].
  pose proof (validate_phase_partitions "testing"
                (InitSdlc.fresh_project "2026-01-01T00:00:00+00:00" "Demo")
                ["Unit tests exist"]
                ["Test coverage report generated";
                 "Coverage meets threshold (>80%)";
                 "Critical bugs resolved"; "Test plan documented"]
                eq_refl) as H.
  exact (proj1 (proj2 (proj2 H))).
Defined.

(** *** The verdict and the exit code *)

Lemma index_of_In x l : In x l -> index_of x l <> None.
Proof.
  induction l as [|y l IH]; simpl; [tauto|].
  destruct (y =? x) eqn:Hy; [discriminate|].
  intros [->|Hin]; [now rewrite String.eqb_refl in Hy|].
  destruct (index_of x l); [discriminate|]. now apply IH in Hin.
Qed.

Lemma print_gate_result_status phase passed failed r :
  print_gate_result phase passed failed = Val r ->
  (report_status r = PASSED <-> failed = []).
Proof.
  unfold print_gate_result. destruct failed as [|x failed].
  - destruct (index_of phase PHASE_ORDER); [|discriminate].
    intros [= <-]. simpl. tauto.
  - intros [= <-]. simpl. split; discriminate.
Qed.

Lemma gate_passes_iff d phase passed failed :
  validate_phase phase d = Val (passed, failed) ->
  (gate_passes d phase <-> failed = []).
Proof.
  intros H. unfold gate_passes. rewrite H. split.
  - intros [p' [= _ <-]]. reflexivity.
  - intros ->. eauto.
Qed.

Lemma check_phases_status json_output phases d :
  (forall p, In p phases -> In p PHASE_ORDER) ->
  forall results ok out,
    let code := exit_status (check_phases json_output phases d results ok out)
    in (code = 0%Z <-> ok = true /\ Forall (gate_passes d) phases) /\
       (code = 0%Z \/ code = 1%Z).
Proof.
  induction phases as [|p rest IH]; intros Hsub results ok out; simpl.
  - destruct ok; simpl; split; auto; split.
    + auto.
    + intros _. reflexivity.
    + discriminate.
    + intros [[=] _].
  - destruct (validate_phase p d) as [[passed failed]|e] eqn:Hv; simpl.
    + pose proof (gate_passes_iff _ _ _ _ Hv) as Hg.
      assert (Hrest : forall q, In q rest -> In q PHASE_ORDER)
        by (intros; apply Hsub; now right).
      set (ok' := match failed with [] => ok | _ :: _ => false end).
      assert (Hok : ok' = true <-> ok = true /\ failed = []).
      { subst ok'. destruct failed; split; try tauto.
        - intros [=].
        - intros [_ [=]]. }
      assert (Hstep : ok' = true /\ Forall (gate_passes d) rest <->
                      ok = true /\ Forall (gate_passes d) (p :: rest)).
      { rewrite Hok. split.
        - intros [[H1 H2] H3]. split; auto. constructor; auto. now apply Hg.
        - intros [H1 H2]. inversion H2; subst. repeat split; auto.
          now apply Hg. }
      destruct json_output.
      * destruct (IH Hrest (assoc_set p (passed, failed) results) ok' out)
          as [H1 H2]. split; auto. now rewrite <- Hstep.
      * destruct (print_gate_result p passed failed) as [r|e] eqn:Hr.
        -- destruct (IH Hrest (assoc_set p (passed, failed) results) ok'
                        (out ++ [Report r])) as [H1 H2].
           split; auto. now rewrite <- Hstep.
        -- exfalso. unfold print_gate_result in Hr.
           destruct failed; [|discriminate].
           destruct (index_of p PHASE_ORDER) eqn:Hi; [discriminate|].
           apply (index_of_In p PHASE_ORDER); auto. apply Hsub. now left.
    + split; auto. split; [discriminate|].
      intros [_ H]. inversion H as [|? ? [passed Hp] _]; subst.
      rewrite Hv in Hp. discriminate.
Qed.

Lemma phases_to_check_known args phases :
  phases_to_check args = Some phases ->
  phases <> [] /\ forall p, In p phases -> In p PHASE_ORDER.
Proof.
  unfold phases_to_check.
  destruct (arg_phase args) as [p|].
  - destruct (mem_string p PHASE_ORDER) eqn:Hm; [|discriminate].
    apply mem_string_In in Hm.
    destruct (arg_all args); intros [= <-]; split; try discriminate; auto.
    intros q [<-|[]]. assumption.
  - destruct (arg_all args); [|discriminate].
    intros [= <-]. split; [discriminate|auto].
Qed.

Lemma main_exit_status args d phases :
  phases_to_check args = Some phases ->
  (exit_status (main args d) = 0%Z <-> Forall (gate_passes d) phases) /\
  (exit_status (main args d) = 0%Z \/ exit_status (main args d) = 1%Z).
Proof.
  intros Hargs. unfold main. rewrite Hargs.
  destruct (phases_to_check_known _ _ Hargs) as [_ Hsub].
  destruct (check_phases_status (arg_json_output args) phases d Hsub [] true [])
    as [H1 H2].
  split; auto. rewrite H1. tauto.
Qed.

(** C1: for a command line that addresses phases, the exit code is 0
    exactly when every addressed phase comes back from [validate_phase]
    with an empty failed list, and 1 in every other case; the status line
    of a report says PASSED exactly when the failed list is empty. *)
Theorem gate_verdict_and_exit_code (args : cli_args) (d : node)
        (phases : list string) :
  phases_to_check args = Some phases ->
  (exit_status (main args d) = 0%Z <-> Forall (gate_passes d) phases) /\
  (exit_status (main args d) = 0%Z \/ exit_status (main args d) = 1%Z) /\
  (forall phase passed failed,
      validate_phase phase d = Val (passed, failed) ->
      (gate_passes d phase <-> failed = []) /\
      forall r, print_gate_result phase passed failed = Val r ->
                (report_status r = PASSED <-> failed = [])).
Proof.
  intros Hargs. destruct (main_exit_status args d phases Hargs) as [H1 H2].
  split; [|split]; auto.
  intros phase passed failed Hv. split.
  - now apply gate_passes_iff with (passed := passed).
  - intros r. apply print_gate_result_status.
Qed.

Lemma gate_verdict_and_exit_code_witness :
  phases_to_check (CliArgs (Some "testing") false false) = Some ["testing"] /\
  (exit_status (main (CliArgs (Some "testing") false false) empty_dir) = 0%Z
   \/ exit_status (main (CliArgs (Some "testing") false false) empty_dir)
      = 1%Z).
Proof.
  split; [reflexivity|].
  exact (proj1 (proj2 (gate_verdict_and_exit_code
                         (CliArgs (Some "testing") false false) empty_dir
                         ["testing"] eq_refl))).
Defined.

(** *** Unknown checkers *)

Lemma validate_criteria_app before after d :
  forall p f,
    validate_criteria (before ++ after) d p f =
    match validate_criteria before d p f with
    | Val (p1, f1) => validate_criteria after d p1 f1
    | Err e => Err e
    end.
Proof.
  induction before as [|c before IH]; intros p f; simpl; [reflexivity|].
  destruct (criterion_met d c) as [[|]|e]; simpl; auto.
Qed.

(** C2: a criterion whose checker name is not in the checker table is
    not met and raises nothing; in any list of criteria the loop goes on
    past it, with its description appended to the failed list, and
    evaluates the criteria after it. *)
Theorem unknown_checker_fails (d : node) (c : criterion)
        (before after : list criterion) (p f : list string) :
  assoc_get (checker_name c) CHECKERS = None ->
  criterion_met d c = Val false /\
  validate_criteria (before ++ c :: after) d p f =
    match validate_criteria before d p f with
    | Val (p1, f1) => validate_criteria after d p1 (f1 ++ [description c])
    | Err e => Err e
    end /\
  forall passed failed,
    validate_criteria (before ++ c :: after) d p f = Val (passed, failed) ->
    In (description c) failed.
Proof.
  intros Hc.
  assert (Hmet : criterion_met d c = Val false)
    by (unfold criterion_met; now rewrite Hc).
  assert (Heq : validate_criteria (before ++ c :: after) d p f =
                match validate_criteria before d p f with
                | Val (p1, f1) =>
                    validate_criteria after d p1 (f1 ++ [description c])
                | Err e => Err e
                end).
  { rewrite validate_criteria_app.
    destruct (validate_criteria before d p f) as [[p1 f1]|e]; auto.
    simpl. now rewrite Hmet. }
  repeat split; auto.
  intros passed failed H. rewrite Heq in H.
  destruct (validate_criteria before d p f) as [[p1 f1]|e]; [|discriminate].
  apply validate_criteria_filter in H as [_ ->].
  apply in_or_app. left. apply in_or_app. right. now left.
Qed.

Lemma unknown_checker_fails_witness :
  validate_criteria
    [ crit1 "README exists" "check_file" "README.md";
      crit1 "Licence reviewed" "check_licence" "LICENSE";
      crit1 "Git repository initialized" "check_dir" ".git" ]
    (Dir [("README.md", File "# Demo" None)]) [] []
  = Val (["README exists"], ["Licence reviewed"; "Git repository initialized"]).
Proof.
  exact (eq_trans
           (proj1 (proj2 (unknown_checker_fails
                            (Dir [("README.md", File "# Demo" None)])
                            (crit1 "Licence reviewed" "check_licence" "LICENSE")
                            [crit1 "README exists" "check_file" "README.md"]
                            [crit1 "Git repository initialized" "check_dir"
                                   ".git"]
                            [] [] eq_refl)))
           eq_refl).
Defined.

(** *** A project without a state document *)









(** *** A corrupted state document *)

Lemma load_state_corrupt d text :
  lookup state_path d = Some (File text None) ->
  load_state d = Err JSONDecodeError.
Proof.
  intros H. unfold load_state, exists_, read_json. now rewrite H.
Qed.

(** C6, the validator on a state file that is not JSON: [load_state]
    raises the decoder's own exception, nothing on the way catches it,
    and the process ends with a traceback. *)
Theorem corrupt_state_reaches_top_level :
  load_state corrupt_project = Err JSONDecodeError /\
  validate_phase "requirements" corrupt_project = Err JSONDecodeError /\
  main (CliArgs (Some "requirements") false false) corrupt_project =
    Traceback JSONDecodeError [].
Proof. repeat split; vm_compute; reflexivity. Qed.

(** *** Checkers *)

Lemma check_file_exists d filepath :
  check_file d (AStr filepath) = Val (exists_ (split_path filepath) d).
Proof. reflexivity. Qed.

(** C4: the file checker says yes for a path that is a directory. *)
Theorem check_file_accepts_directory :
  is_dir ["README.md"] readme_is_a_directory = true /\
  is_file ["README.md"] readme_is_a_directory = false /\
  check_file readme_is_a_directory (AStr "README.md") = Val true /\
  exists failed,
    validate_phase "development" readme_is_a_directory =
      Val (["README exists"], failed).
Proof. repeat split; try reflexivity. eexists. vm_compute. reflexivity. Qed.

(** *** A freshly initialized project *)

(** C3, the testing phase: the checklist [04-testing.md] written by
    [init_sdlc] matches the pattern of "Unit tests exist". *)
Theorem fresh_project_passes_unit_tests (now project_name : string) :
  rglob "*test*" (InitSdlc.fresh_project now project_name) =
    Val [[".sdlc"; "phases"; "04-testing.md"]] /\
  validate_phase "testing" (InitSdlc.fresh_project now project_name) =
    Val (["Unit tests exist"],
         ["Test coverage report generated"; "Coverage meets threshold (>80%)";
          "Critical bugs resolved"; "Test plan documented"]).
Proof. split; vm_compute; reflexivity. Qed.

(** The other six phases start with nothing passed. *)
Lemma fresh_project_other_phases (now project_name phase : string) :
  In phase PHASE_ORDER -> phase <> "testing" ->
  validate_phase phase (InitSdlc.fresh_project now project_name) =
    Val ([], map description (phase_criteria phase)).
Proof.
  simpl. intros H Hne.
  repeat (destruct H as [<-|H];
          [try congruence; vm_compute; reflexivity|]).
  destruct H.
Qed.

End GateFacts.

(* ------------------------------------------------------------------ *)
(** ** The orchestrator *)

Module OrchestrateFacts.
Import FS Orchestrate WalkProps DictFacts FSFacts.

(** *** Saving and loading *)



(** A dry run saves nothing. *)
Lemma save_state_dry_run (E : env) (w : world) :
  save_state E true w = Ok tt w.
Proof. reflexivity. Qed.

(** *** Dry runs *)

(** C7: a dry run that reaches the testing phase and is given no
    coverage report creates the directory [coverage] in a project
    directory that was empty. *)
Theorem dry_run_creates_coverage_dir (E : env) :
  let result :=
    run E (CliArgs (Some "testing") true) (start (Dir []) accept_defaults) in
  w_fs (snd result) = Dir [("coverage", Dir [])] /\
  In (EvWouldWrite ["coverage"; "placeholder.txt"]) (w_out (snd result)).
Proof.
  destruct E as [clk sub rp repr slo exe root pd]. vm_compute.
  match goal with
  | |- context [slo ?a ?b] => destruct (slo a b) as [page|[]]
  end; (split; [reflexivity|]);
    repeat first [left; reflexivity | right].
Qed.

(** The handler alone, on any state and context, once the operator
    leaves the coverage path blank. *)
Lemma run_testing_dry_run_mkdir (E : env) state ctx out t :
  w_fs (final (run_testing E true
                 (World (Dir []) state ctx [""; "n"; "n"] out t)))
  = Dir [("coverage", Dir [])].
Proof. reflexivity. Qed.

(** *** The gate as the orchestrator sees it *)

(** Outside a dry run [run_gate] answers yes exactly when the validator
    returns an empty failed list for the phase. *)
Lemma run_gate_follows_validator (q : string) (w : world) :
  In q PHASE_ORDER ->
  exists verdict,
    run_gate q false w = Ok verdict w /\
    (verdict = true <-> Props.gate_passes (w_fs w) q).
Proof.
  intros Hq. unfold run_gate, bind, get_fs, ret.
  eexists. split; [reflexivity|].
  assert (Hargs : GateValidator.phases_to_check
                    (GateValidator.CliArgs (Some q) false false) = Some [q]).
  { assert (Hm : mem_string q GateValidator.PHASE_ORDER = true)
      by (apply mem_string_In; exact Hq).
    unfold GateValidator.phases_to_check.
    cbn [GateValidator.arg_phase GateValidator.arg_all].
    now rewrite Hm. }
  destruct (GateFacts.main_exit_status _ (w_fs w) _ Hargs) as [Hzero _].
  rewrite Z.eqb_eq, Hzero. split.
  - intros H. now inversion H.
  - intros H. constructor; auto.
Qed.

(** *** The state dictionary under the updates of the walk *)

Lemma set_phase_field_other state q key value state' p :
  set_phase_field state q key value = Val state' -> q <> p ->
  phase_record state' p = phase_record state p.
Proof.
  unfold set_phase_field, phase_record, getitem, setitem, rbind.
  destruct state as [| | | | |d]; try discriminate.
  destruct (assoc_get "phases" d) as [phases|] eqn:Hd; [|discriminate].
  destruct phases as [| | | | |ph]; try discriminate.
  destruct (assoc_get q ph) as [record|]; [|discriminate].
  destruct record as [| | | | |fields]; try discriminate.
  intros [= <-] Hne. rewrite assoc_get_set_same.
  rewrite assoc_get_set_other by congruence. reflexivity.
Qed.

Lemma add_note_to_other state q note state' p :
  add_note_to state q note = Val state' -> q <> p ->
  phase_record state' p = phase_record state p.
Proof.
  unfold add_note_to, phase_record, getitem, setitem, rbind.
  destruct state as [| | | | |d]; try discriminate.
  destruct (assoc_get "phases" d) as [phases|] eqn:Hd; [|discriminate].
  destruct phases as [| | | | |ph]; try discriminate.
  destruct (assoc_get q ph) as [record|]; [|discriminate].
  destruct record as [| | | | |fields]; try discriminate.
  destruct (append_note _ note) as [notes'|]; [|discriminate].
  intros [= <-] Hne. rewrite assoc_get_set_same.
  rewrite assoc_get_set_other by congruence. reflexivity.
Qed.

Lemma setitem_top_other state key value state' p :
  setitem state key value = Val state' -> key <> "phases" ->
  phase_record state' p = phase_record state p.
Proof.
  unfold setitem, phase_record, getitem, rbind.
  destruct state as [| | | | |d]; try discriminate.
  intros [= <-] Hne. rewrite assoc_get_set_other by congruence. reflexivity.
Qed.

Lemma untouched_printed p out ev :
  untouched p out -> ev <> EvPhaseHeader p -> ev <> EvGateCheck p ->
  untouched p (out ++ [ev]).
Proof.
  intros [H1 H2] Hh Hg. split; intros Hin; apply in_app_or in Hin;
    destruct Hin as [Hin|[Heq|[]]]; auto; congruence.
Qed.

Lemma neutral_other p ev :
  neutral ev -> ev <> EvPhaseHeader p /\ ev <> EvGateCheck p.
Proof. destruct ev; simpl; intros H; try tauto; split; discriminate. Qed.

Section Preservation.

Variable E : env.
Variable p : string.
Variable r : json.

Lemma pres_ret {A} (a : A) : preserves p r (ret a).
Proof. intros w H. exact H. Qed.

Lemma pres_raise {A} e : preserves p r (@raise A e).
Proof. intros w H. exact H. Qed.

Lemma pres_bind {A B} (m : M A) (f : A -> M B) :
  preserves p r m -> (forall a, preserves p r (f a)) ->
  preserves p r (bind m f).
Proof.
  intros Hm Hf w Hw. specialize (Hm w Hw). unfold bind.
  destruct (m w) as [a w'|e w']; simpl in *; auto. now apply Hf.
Qed.

Lemma pres_lift {A} (x : res A) : preserves p r (lift x).
Proof. destruct x; [apply pres_ret | apply pres_raise]. Qed.

Lemma pres_when b m : preserves p r m -> preserves p r (when b m).
Proof. destruct b; simpl; auto using pres_ret. Qed.

Lemma silent_pres {A} (m : M A) : silent m -> preserves p r m.
Proof.
  intros Hs w [Hrec Hout]. destruct (Hs w) as [H1 H2].
  unfold keeps. now rewrite H1, H2.
Qed.

Lemma silent_get_fs : silent get_fs.
Proof. intros w. split; reflexivity. Qed.

Lemma silent_put_fs d : silent (put_fs d).
Proof. intros w. split; reflexivity. Qed.

Lemma silent_get_state : silent get_state.
Proof. intros w. split; reflexivity. Qed.

Lemma silent_get_ctx : silent get_ctx.
Proof. intros w. split; reflexivity. Qed.

Lemma silent_put_ctx c : silent (put_ctx c).
Proof. intros w. split; reflexivity. Qed.

Lemma silent_input : silent input.
Proof. intros w. unfold input. destruct (w_in w); split; reflexivity. Qed.

Lemma silent_utc_now : silent (utc_now E).
Proof. intros w. split; reflexivity. Qed.

Lemma silent_prompt_choice question choices default :
  silent (prompt_choice question choices default).
Proof.
  intros w. unfold prompt_choice.
  destruct (choose choices default (w_in w)) as [[a rest]|]; split; reflexivity.
Qed.

Lemma pres_emit ev :
  ev <> EvPhaseHeader p -> ev <> EvGateCheck p -> preserves p r (emit ev).
Proof.
  intros Hh Hg w [Hrec Hout]. split; simpl; auto using untouched_printed.
Qed.

Lemma pres_emit_neutral ev : neutral ev -> preserves p r (emit ev).
Proof. intros H. destruct (neutral_other p ev H). now apply pres_emit. Qed.

Lemma pres_header text : preserves p r (header text).
Proof. now apply pres_emit_neutral. Qed.

Lemma pres_section text : preserves p r (section text).
Proof. now apply pres_emit_neutral. Qed.

Lemma pres_bind_state {B} (f : json -> M B) :
  (forall state, phase_record state p = Val r -> preserves p r (f state)) ->
  preserves p r (bind get_state f).
Proof. intros Hf w Hw. unfold bind, get_state. apply Hf; apply Hw. Qed.

Lemma pres_bind_lift {A B} (x : res A) (f : A -> M B) :
  (forall a, x = Val a -> preserves p r (f a)) ->
  preserves p r (bind (lift x) f).
Proof.
  intros Hf. destruct x as [a|e].
  - intros w Hw. apply (Hf a eq_refl w Hw).
  - intros w Hw. exact Hw.
Qed.

Lemma pres_put_state state :
  phase_record state p = Val r -> preserves p r (put_state state).
Proof. intros Hs w [Hrec Hout]. split; auto. Qed.

(** An update of the state that keeps the record of [p]. *)
Lemma pres_update (f : json -> res json) :
  (forall state state', f state = Val state' ->
                        phase_record state' p = phase_record state p) ->
  preserves p r (state <- get_state ;; state' <- lift (f state) ;;
                 put_state state').
Proof.
  intros Hf. apply pres_bind_state. intros state Hs.
  apply pres_bind_lift. intros state' Hu.
  apply pres_put_state. now rewrite (Hf _ _ Hu).
Qed.

Lemma pres_add_note q note : q <> p -> preserves p r (add_note q note).
Proof.
  intros Hne. apply pres_update. intros. eapply add_note_to_other; eauto.
Qed.

Lemma pres_set_field q key value :
  q <> p -> preserves p r (set_field q key value).
Proof.
  intros Hne. apply pres_update. intros. eapply set_phase_field_other; eauto.
Qed.

Lemma pres_set_current_phase q : preserves p r (set_current_phase q).
Proof.
  apply pres_update. intros. eapply setitem_top_other; eauto. discriminate.
Qed.

Create HintDb pres.

Hint Resolve pres_ret pres_raise pres_lift pres_header pres_section
     pres_add_note pres_set_field pres_set_current_phase : pres.
Hint Resolve silent_get_fs silent_put_fs silent_get_state silent_get_ctx
     silent_put_ctx silent_input silent_utc_now silent_prompt_choice : pres.
Hint Extern 1 (preserves _ _ get_fs) => apply silent_pres : pres.
Hint Extern 1 (preserves _ _ (put_fs _)) => apply silent_pres : pres.
Hint Extern 1 (preserves _ _ get_state) => apply silent_pres : pres.
Hint Extern 1 (preserves _ _ get_ctx) => apply silent_pres : pres.
Hint Extern 1 (preserves _ _ (put_ctx _)) => apply silent_pres : pres.
Hint Extern 1 (preserves _ _ input) => apply silent_pres : pres.
Hint Extern 1 (preserves _ _ (utc_now _)) => apply silent_pres : pres.
Hint Extern 1 (preserves _ _ (prompt_choice _ _ _)) =>
  apply silent_pres : pres.
Hint Extern 1 (preserves _ _ (emit _)) =>
  apply pres_emit_neutral; exact I : pres.

(** One step through the structure of a computation. *)
Ltac pres_step :=
  match goal with
  | |- preserves _ _ (bind _ _) => apply pres_bind; [|intros]
  | |- preserves _ _ (when _ _) => apply pres_when
  | |- preserves _ _ (if ?b then _ else _) => destruct b
  | |- preserves _ _ (let (_, _) := ?x in _) => destruct x
  | |- preserves _ _ (match ?x with _ => _ end) => destruct x
  | |- preserves _ _ _ => solve [auto with pres]
  end.

Ltac pres_auto := repeat pres_step.

Lemma pres_save_state dry_run : preserves p r (save_state E dry_run).
Proof.
  unfold save_state. destruct dry_run; [apply pres_ret|].
  apply pres_bind; [auto with pres|]. intros now.
  apply pres_bind_state. intros state Hs.
  apply pres_bind_lift. intros state' Hu.
  apply pres_bind.
  - apply pres_put_state. rewrite <- Hs.
    eapply setitem_top_other; eauto. discriminate.
  - intros _. pres_auto.
Qed.

Lemma pres_mark_started q : q <> p -> preserves p r (mark_started E q).
Proof. intros Hne. unfold mark_started. pres_auto. Qed.

Lemma pres_mark_completed q : q <> p -> preserves p r (mark_completed E q).
Proof. intros Hne. unfold mark_completed. pres_auto. Qed.

Lemma pres_path_exists path : preserves p r (path_exists path).
Proof. unfold path_exists. pres_auto. Qed.

Lemma pres_ctx_item k : preserves p r (ctx_item k).
Proof. unfold ctx_item. pres_auto. Qed.

Lemma pres_ctx_set k v : preserves p r (ctx_set k v).
Proof. unfold ctx_set. pres_auto. Qed.

Lemma pres_ctx_get k v : preserves p r (ctx_get k v).
Proof. unfold ctx_get. pres_auto. Qed.

Lemma pres_prompt question default : preserves p r (prompt question default).
Proof. unfold prompt. pres_auto. Qed.

Lemma pres_prompt_value question default :
  preserves p r (prompt_value question default).
Proof. unfold prompt_value. pres_auto. Qed.

Hint Resolve pres_save_state pres_mark_started pres_mark_completed
     pres_path_exists pres_ctx_item pres_ctx_set pres_ctx_get pres_prompt
     pres_prompt_value : pres.

Lemma pres_prompt_yn question default :
  preserves p r (prompt_yn question default).
Proof. unfold prompt_yn. pres_auto. Qed.

Lemma pres_run_script cmd dry_run : preserves p r (run_script E cmd dry_run).
Proof. unfold run_script. pres_auto. Qed.

Lemma pres_run_gate q dry_run : preserves p r (run_gate q dry_run).
Proof. unfold run_gate. pres_auto. Qed.

Lemma pres_write_file path content dry_run :
  preserves p r (write_file path content dry_run).
Proof. unfold write_file. pres_auto. Qed.

Lemma pres_make_dirs path : preserves p r (make_dirs path).
Proof. unfold make_dirs. pres_auto. Qed.

Lemma pres_repo_file rel : preserves p r (repo_file E rel).
Proof. unfold repo_file. pres_auto. Qed.

Hint Resolve pres_prompt_yn pres_run_script pres_run_gate pres_write_file
     pres_make_dirs pres_repo_file : pres.

Lemma pres_copy_asset src dst dry_run :
  preserves p r (copy_asset E src dst dry_run).
Proof. unfold copy_asset. pres_auto. Qed.

Hint Resolve pres_copy_asset : pres.

(** Each handler writes notes for its own phase only. *)
Lemma pres_run_requirements dry_run :
  "requirements" <> p -> preserves p r (run_requirements E dry_run).
Proof. intros Hne. unfold run_requirements. pres_auto. Qed.

Lemma pres_run_development dry_run :
  "development" <> p -> preserves p r (run_development E dry_run).
Proof. intros Hne. unfold run_development. pres_auto. Qed.

Lemma pres_run_cicd dry_run :
  "cicd" <> p -> preserves p r (run_cicd E dry_run).
Proof. intros Hne. unfold run_cicd. pres_auto. Qed.

Lemma pres_run_testing dry_run :
  "testing" <> p -> preserves p r (run_testing E dry_run).
Proof. intros Hne. unfold run_testing. pres_auto. Qed.

Lemma pres_run_uat dry_run :
  "uat" <> p -> preserves p r (run_uat E dry_run).
Proof. intros Hne. unfold run_uat. pres_auto. Qed.

Lemma pres_run_deployment dry_run :
  "deployment" <> p -> preserves p r (run_deployment E dry_run).
Proof. intros Hne. unfold run_deployment. pres_auto. Qed.

Lemma pres_run_monitoring dry_run :
  "monitoring" <> p -> preserves p r (run_monitoring E dry_run).
Proof. intros Hne. unfold run_monitoring. pres_auto. Qed.

Lemma pres_handler q handler dry_run :
  assoc_get q (PHASE_HANDLERS E) = Some handler -> q <> p ->
  preserves p r (handler dry_run).
Proof.
  intros Hh Hne. apply assoc_get_In in Hh. simpl in Hh.
  destruct Hh as [Hh|[Hh|[Hh|[Hh|[Hh|[Hh|[Hh|[]]]]]]]];
    injection Hh as <- <-;
    auto using pres_run_requirements, pres_run_development, pres_run_cicd,
               pres_run_testing, pres_run_uat, pres_run_deployment,
               pres_run_monitoring.
Qed.

Lemma pres_gate_loop rounds q dry_run :
  q <> p -> preserves p r (gate_loop E rounds q dry_run).
Proof.
  intros Hne. induction rounds as [|rounds IH]; simpl; [apply pres_raise|].
  apply pres_bind; [apply pres_emit; congruence|]. intros _.
  pres_auto.
Qed.

Lemma pres_gate_check q dry_run :
  q <> p -> preserves p r (gate_check E q dry_run).
Proof. intros Hne w Hw. unfold gate_check. now apply pres_gate_loop. Qed.

Hint Resolve pres_gate_check : pres.

(** The iteration on the completed phase itself: one line on the
    terminal, nothing else. *)
Lemma walk_phase_skips dry_run idx w :
  phase_record (w_state w) p = Val r -> already_completed r = Val true ->
  walk_phase E dry_run idx p w = Ok tt (printed w (EvSkip p)).
Proof.
  intros Hrec Hdone. unfold walk_phase, bind, get_state.
  rewrite Hrec. simpl. rewrite Hdone. reflexivity.
Qed.

Lemma pres_walk_phase dry_run idx q :
  already_completed r = Val true ->
  preserves p r (walk_phase E dry_run idx q).
Proof.
  intros Hdone. destruct (String.eqb_spec q p) as [->|Hne].
  - intros w Hw. rewrite walk_phase_skips; auto; [|apply Hw].
    destruct Hw as [Hrec Hout]. split; auto. simpl.
    apply untouched_printed; auto; discriminate.
  - unfold walk_phase.
    apply pres_bind; [auto with pres|]. intros state.
    apply pres_bind; [auto with pres|]. intros phase_data.
    apply pres_bind; [auto with pres|]. intros [|]; [auto with pres|].
    apply pres_bind; [apply pres_emit; congruence|]. intros _.
    apply pres_bind; [auto with pres|]. intros _.
    apply pres_bind; [auto with pres|]. intros _.
    destruct (assoc_get q (PHASE_HANDLERS E)) as [handler|] eqn:Hh;
      [|apply pres_raise].
    apply pres_bind; [eapply pres_handler; eauto|]. intros _.
    pres_auto.
Qed.

Lemma pres_walk dry_run phases :
  already_completed r = Val true ->
  forall idx, preserves p r (walk E dry_run idx phases).
Proof.
  intros Hdone. induction phases as [|q rest IH]; intros idx; simpl.
  - apply pres_ret.
  - apply pres_bind; [now apply pres_walk_phase|]. intros _. apply IH.
Qed.

End Preservation.

(** *** Resuming *)

Lemma completed_record r :
  dict_get r "status" JNull = Val (JStr "completed") ->
  dict_get r "gate_passed" JNull = Val (JBool true) ->
  already_completed r = Val true.
Proof. intros Hs Hg. unfold already_completed. now rewrite Hs, Hg. Qed.

(** C9: when the state document records a phase as completed with its
    gate passed, a run of the orchestrator leaves the record of that
    phase as it was and never announces the phase or a gate check for it;
    the iteration of the walk on that phase only prints the skip line. *)
Theorem completed_phase_is_skipped (E : env) (args : cli_args) (d : node)
        (lines : list string) (state : json) (p : string) (r : json) :
  load_state d = Val state ->
  phase_record state p = Val r ->
  dict_get r "status" JNull = Val (JStr "completed") ->
  dict_get r "gate_passed" JNull = Val (JBool true) ->
  let w' := final (main E args (start d lines)) in
  phase_record (w_state w') p = Val r /\
  ~ In (EvPhaseHeader p) (w_out w') /\
  ~ In (EvGateCheck p) (w_out w') /\
  forall dry_run idx w,
    phase_record (w_state w) p = Val r ->
    walk_phase E dry_run idx p w = Ok tt (printed w (EvSkip p)).
Proof.
  intros Hload Hrec Hs Hg w'.
  pose proof (completed_record r Hs Hg) as Hdone.
  assert (Hk : keeps p r w').
  { subst w'. unfold main.
    cbn [bind header emit get_fs start w_fs w_state w_ctx w_in w_out w_time].
    rewrite Hload.
    cbn [bind lift ret put_state w_fs w_state w_ctx w_in w_out w_time].
    match goal with
    | |- keeps p r (final (?m ?w)) =>
        cut (preserves p r m); [intros Hp; apply Hp|]
    end.
    - split; [exact Hrec|]. split; intros [Hin|[]]; discriminate.
    - assert (Hstate : match state with JNull => False | _ => True end).
      { destruct state; try exact I. discriminate. }
      apply pres_bind.
      + destruct state; try contradiction; apply pres_ret.
      + intros _.
        apply pres_bind; [apply silent_pres, silent_get_state|]. intros st.
        apply pres_bind; [apply pres_lift|]. intros name.
        apply pres_bind; [apply silent_pres, silent_put_ctx|]. intros _.
        apply pres_bind.
        { destruct (arg_start_from args); [apply pres_ret | apply pres_lift]. }
        intros start_phase. apply pres_bind.
        { destruct start_phase; try apply pres_raise.
          destruct (GateValidator.index_of s PHASE_ORDER);
            [apply pres_ret | apply pres_raise]. }
        intros start_idx. apply pres_bind; [now apply pres_walk|].
        intros _. apply pres_header. }
  destruct Hk as [Hrec' [Hh Hc]]. repeat split; auto.
  intros dry_run idx w Hw. now apply walk_phase_skips with (r := r).
Qed.

Lemma completed_phase_is_skipped_witness :
  let w' := final (main quiet (CliArgs (Some "requirements") true)
                        (start resumed_project [])) in
  phase_record (w_state w') "requirements"
  = Val (JObj [ ("status", JStr "completed"); ("gate_passed", JBool true);
                ("notes", JArr []) ]) /\
  In (EvSkip "requirements") (w_out w') /\
  In (EvPhaseHeader "development") (w_out w').
Proof.
  split; [|split; vm_compute; tauto].
  exact (proj1 (completed_phase_is_skipped quiet
                  (CliArgs (Some "requirements") true) resumed_project []
                  resumed_state "requirements"
                  (JObj [ ("status", JStr "completed");
                          ("gate_passed", JBool true); ("notes", JArr []) ])
                  eq_refl eq_refl eq_refl eq_refl)).
Defined.

(** *** A corrupted state document *)

(** The orchestrator catches the decoder's exception at top level and
    reports the corrupted document. *)
Lemma corrupt_state_reported (E : env) (args : cli_args) (lines : list string) :
  usage_error args = false ->
  fst (run E args (start Props.corrupt_project lines)) = 1%Z /\
  w_out (snd (run E args (start Props.corrupt_project lines)))
  = [EvHeader "SDLC Orchestrator"; EvCorruptState].
Proof. intros H. unfold run. rewrite H. split; reflexivity. Qed.

(** *** The gate loop comes to an end *)

Lemma proper_getitem obj k : proper (getitem obj k).
Proof.
  unfold proper, getitem. destruct obj; try discriminate.
  destruct (assoc_get k fields); discriminate.
Qed.

Lemma proper_setitem obj k v : proper (setitem obj k v).
Proof. unfold proper, setitem. destruct obj; discriminate. Qed.

Lemma proper_rbind {A B} (x : res A) (f : A -> res B) :
  proper x -> (forall a, proper (f a)) -> proper (rbind x f).
Proof.
  unfold proper. intros Hx Hf. destruct x as [a|e]; simpl.
  - apply Hf.
  - intros [= ->]. now apply Hx.
Qed.

Lemma proper_set_phase_field state q key value :
  proper (set_phase_field state q key value).
Proof.
  unfold set_phase_field.
  repeat (apply proper_rbind;
          [first [apply proper_getitem | apply proper_setitem]|intros]).
  apply proper_setitem.
Qed.

Lemma proper_write path f d : proper (write path f d).
Proof.
  unfold proper. revert d. induction path as [|c rest IH]; intros d; simpl.
  - destruct d; discriminate.
  - destruct d as [|es]; [discriminate|].
    destruct (assoc_get c es) as [child|].
    + specialize (IH child). destruct (write rest f child); simpl;
        [discriminate|congruence].
    + destruct rest; discriminate.
Qed.

Section Termination.

Variable E : env.

Lemma steady_ret {A} (a : A) : steady (ret a).
Proof. intros w. simpl. lia. Qed.

Lemma steady_raise {A} e : e <> Unfinished -> steady (@raise A e).
Proof. intros He w. simpl. split; [assumption|lia]. Qed.

Lemma steady_bind {A B} (m : M A) (f : A -> M B) :
  steady m -> (forall a, steady (f a)) -> steady (bind m f).
Proof.
  intros Hm Hf w. unfold bind. specialize (Hm w).
  destruct (m w) as [a w1|e w1]; [|exact Hm].
  specialize (Hf a w1). destruct (f a w1) as [b w2|e w2].
  - lia.
  - destruct Hf. split; [assumption|lia].
Qed.

Lemma steady_lift {A} (x : res A) : proper x -> steady (lift x).
Proof.
  intros Hx. destruct x as [a|e]; [apply steady_ret|].
  apply steady_raise. unfold proper in Hx. congruence.
Qed.

Lemma steady_emit ev : steady (emit ev).
Proof. intros w. simpl. lia. Qed.

Lemma steady_get_state : steady get_state.
Proof. intros w. simpl. lia. Qed.

Lemma steady_put_state state : steady (put_state state).
Proof. intros w. simpl. lia. Qed.

Lemma steady_get_fs : steady get_fs.
Proof. intros w. simpl. lia. Qed.

Lemma steady_put_fs d : steady (put_fs d).
Proof. intros w. simpl. lia. Qed.

Lemma steady_utc_now : steady (utc_now E).
Proof. intros w. simpl. lia. Qed.

Lemma choose_shorter choices default lines answer rest :
  choose choices default lines = Some (answer, rest) ->
  length rest < length lines.
Proof.
  induction lines as [|line lines IH]; simpl; [discriminate|].
  destruct (mem_string _ choices).
  - intros [= _ <-]. lia.
  - intros H. apply IH in H. lia.
Qed.

Lemma consumes_prompt_choice question choices default :
  consumes (prompt_choice question choices default).
Proof.
  intros w. unfold prompt_choice.
  destruct (choose choices default (w_in w)) as [[a rest]|] eqn:Hc; simpl.
  - eapply choose_shorter; eauto.
  - discriminate.
Qed.

Lemma steady_input : steady input.
Proof.
  intros w. unfold input. destruct (w_in w) eqn:Hin; simpl; rewrite ?Hin.
  - split; [discriminate|simpl; lia].
  - simpl. lia.
Qed.

Lemma steady_set_field q key value : steady (set_field q key value).
Proof.
  unfold set_field.
  apply steady_bind; [apply steady_get_state|]. intros state.
  apply steady_bind; [apply steady_lift, proper_set_phase_field|].
  intros. apply steady_put_state.
Qed.

Lemma steady_mark_completed q : steady (mark_completed E q).
Proof.
  unfold mark_completed.
  apply steady_bind; [apply steady_set_field|]. intros _.
  apply steady_bind; [apply steady_utc_now|]. intros now.
  apply steady_bind; [apply steady_set_field|]. intros _.
  apply steady_set_field.
Qed.

Lemma steady_save_state dry_run : steady (save_state E dry_run).
Proof.
  unfold save_state. destruct dry_run; [apply steady_ret|].
  apply steady_bind; [apply steady_utc_now|]. intros now.
  apply steady_bind; [apply steady_get_state|]. intros state.
  apply steady_bind; [apply steady_lift, proper_setitem|]. intros state'.
  apply steady_bind; [apply steady_put_state|]. intros _.
  apply steady_bind; [apply steady_get_fs|]. intros d.
  apply steady_bind; [apply steady_lift, proper_write|]. intros d'.
  apply steady_put_fs.
Qed.

Lemma steady_run_gate q dry_run : steady (run_gate q dry_run).
Proof.
  unfold run_gate. destruct dry_run.
  - apply steady_bind; [apply steady_emit|]. intros. apply steady_ret.
  - apply steady_bind; [apply steady_get_fs|]. intros. apply steady_ret.
Qed.

Lemma finishes_steady {A} n (m : M A) : steady m -> finishes n m.
Proof.
  intros Hm w _ w' Heq. specialize (Hm w). rewrite Heq in Hm.
  now destruct Hm.
Qed.

Lemma finishes_bind {A B} n (m : M A) (f : A -> M B) :
  steady m -> (forall a, finishes n (f a)) -> finishes n (bind m f).
Proof.
  intros Hm Hf w Hlen w'. unfold bind. specialize (Hm w).
  destruct (m w) as [a w1|e w1].
  - apply Hf. lia.
  - destruct Hm. congruence.
Qed.

Lemma finishes_bind_consumes {A B} n (m : M A) (f : A -> M B) :
  consumes m -> (forall a, finishes n (f a)) -> finishes (S n) (bind m f).
Proof.
  intros Hm Hf w Hlen w'. unfold bind. specialize (Hm w).
  destruct (m w) as [a w1|e w1].
  - apply Hf. lia.
  - congruence.
Qed.

Lemma gate_loop_finishes q dry_run :
  forall n, finishes n (gate_loop E n q dry_run).
Proof.
  induction n as [|n IH]; [intros w Hlen; lia|]. simpl.
  apply finishes_bind; [apply steady_emit|]. intros _.
  apply finishes_bind; [apply steady_run_gate|]. intros [|].
  - apply finishes_steady.
    apply steady_bind; [apply steady_emit|]. intros _.
    apply steady_bind; [apply steady_mark_completed|]. intros _.
    apply steady_save_state.
  - apply finishes_bind; [apply steady_emit|]. intros _.
    apply finishes_bind_consumes; [apply consumes_prompt_choice|].
    intros action.
    destruct (action =? "quit").
    { apply finishes_steady.
      apply steady_bind; [apply steady_emit|]. intros _.
      apply steady_bind; [apply steady_save_state|]. intros _.
      apply steady_raise. discriminate. }
    destruct (action =? "skip").
    { apply finishes_steady.
      apply steady_bind; [apply steady_emit|]. intros _.
      apply steady_bind; [apply steady_mark_completed|]. intros _.
      apply steady_save_state. }
    destruct (action =? "fix"); [|exact IH].
    apply finishes_bind; [apply steady_input|]. intros _. exact IH.
Qed.

(** The bound given to the gate loop is never the reason it stops. *)
Lemma gate_check_finishes q dry_run w w' :
  gate_check E q dry_run w <> Raise Unfinished w'.
Proof. unfold gate_check. apply gate_loop_finishes. lia. Qed.

End Termination.

(** *** What a dry run leaves on disk *)

Lemma assoc_set_twice {A} (k : string) (v : A) d :
  assoc_set k v (assoc_set k v d) = assoc_set k v d.
Proof.
  induction d as [|[k' v'] d IH]; simpl.
  - now rewrite String.eqb_refl.
  - destruct (k' =? k) eqn:Hk; simpl; rewrite Hk; congruence.
Qed.

Lemma mkdir_p_again name d d' :
  mkdir_p [name] d = Val d' -> mkdir_p [name] d' = Val d'.
Proof.
  simpl. destruct d as [|es]; [discriminate|].
  destruct (assoc_get name es) as [child|] eqn:Hc.
  - destruct child as [|sub]; simpl; [discriminate|].
    intros [= <-]. rewrite assoc_get_set_same. simpl.
    now rewrite assoc_set_twice.
  - intros [= <-]. rewrite assoc_get_set_same. simpl.
    now rewrite assoc_set_twice.
Qed.

Section DryRun.

Variable E : env.
Variable before : node.

Lemma frames_ret {A} (a : A) : frames before (ret a).
Proof. intros w H. exact H. Qed.

Lemma frames_raise {A} e : frames before (@raise A e).
Proof. intros w H. exact H. Qed.

Lemma frames_bind {A B} (m : M A) (f : A -> M B) :
  frames before m -> (forall a, frames before (f a)) ->
  frames before (bind m f).
Proof.
  intros Hm Hf w Hw. specialize (Hm w Hw). unfold bind.
  destruct (m w) as [a w'|e w']; simpl in *; auto. now apply Hf.
Qed.

Lemma frames_lift {A} (x : res A) : frames before (lift x).
Proof. destruct x; [apply frames_ret | apply frames_raise]. Qed.

Lemma frames_when b m : frames before m -> frames before (when b m).
Proof. destruct b; simpl; auto using frames_ret. Qed.

Lemma offline_frames {A} (m : M A) : offline m -> frames before m.
Proof. intros Hm w Hw. now rewrite Hm. Qed.

Lemma offline_emit ev : offline (emit ev).
Proof. intros w. reflexivity. Qed.

Lemma offline_get_fs : offline get_fs.
Proof. intros w. reflexivity. Qed.

Lemma offline_get_state : offline get_state.
Proof. intros w. reflexivity. Qed.

Lemma offline_put_state state : offline (put_state state).
Proof. intros w. reflexivity. Qed.

Lemma offline_get_ctx : offline get_ctx.
Proof. intros w. reflexivity. Qed.

Lemma offline_put_ctx c : offline (put_ctx c).
Proof. intros w. reflexivity. Qed.

Lemma offline_input : offline input.
Proof. intros w. unfold input. destruct (w_in w); reflexivity. Qed.

Lemma offline_utc_now : offline (utc_now E).
Proof. intros w. reflexivity. Qed.

Lemma offline_prompt_choice question choices default :
  offline (prompt_choice question choices default).
Proof.
  intros w. unfold prompt_choice.
  destruct (choose choices default (w_in w)) as [[a rest]|]; reflexivity.
Qed.

(** The one change: [coverage/] is made, or is there already. *)
Lemma frames_make_coverage : frames before (make_dirs "coverage").
Proof.
  intros w Hw. unfold make_dirs, bind, get_fs, put_fs, lift.
  change (split_path "coverage") with ["coverage"].
  destruct (mkdir_p ["coverage"] (w_fs w)) as [d'|e] eqn:Hm; simpl;
    [|exact Hw].
  destruct Hw as [Heq|Hprev].
  - right. now rewrite <- Heq.
  - right. rewrite (mkdir_p_again _ _ _ Hprev) in Hm. congruence.
Qed.

Create HintDb dry.

Hint Resolve frames_ret frames_raise frames_lift frames_make_coverage : dry.
Hint Resolve offline_emit offline_get_fs offline_get_state offline_put_state
     offline_get_ctx offline_put_ctx offline_input offline_utc_now
     offline_prompt_choice : dry.
Hint Extern 1 (frames _ (emit _)) => apply offline_frames : dry.
Hint Extern 1 (frames _ (header _)) => apply offline_frames : dry.
Hint Extern 1 (frames _ (section _)) => apply offline_frames : dry.
Hint Extern 1 (frames _ get_fs) => apply offline_frames : dry.
Hint Extern 1 (frames _ get_state) => apply offline_frames : dry.
Hint Extern 1 (frames _ (put_state _)) => apply offline_frames : dry.
Hint Extern 1 (frames _ get_ctx) => apply offline_frames : dry.
Hint Extern 1 (frames _ (put_ctx _)) => apply offline_frames : dry.
Hint Extern 1 (frames _ input) => apply offline_frames : dry.
Hint Extern 1 (frames _ (utc_now _)) => apply offline_frames : dry.
Hint Extern 1 (frames _ (prompt_choice _ _ _)) => apply offline_frames : dry.

(** One step through the structure of a computation; a branch that is
    only taken outside a dry run is closed at once. *)
Ltac dry_step :=
  match goal with
  | |- frames _ (bind _ _) => apply frames_bind; [|intros]
  | |- frames _ (when _ _) => apply frames_when
  | |- frames _ (if ?b then _ else _) =>
      let Hb := fresh "Hb" in
      destruct b eqn:Hb;
      try (simpl in Hb; rewrite Bool.andb_false_r in Hb; discriminate)
  | |- frames _ (let (_, _) := ?x in _) => destruct x
  | |- frames _ (match ?x with _ => _ end) => destruct x
  | |- frames _ _ => solve [auto with dry]
  end.

Ltac dry_auto := repeat dry_step.

Lemma frames_save_state : frames before (save_state E true).
Proof. apply frames_ret. Qed.

Lemma frames_add_note q note : frames before (add_note q note).
Proof. unfold add_note. dry_auto. Qed.

Lemma frames_set_field q key value : frames before (set_field q key value).
Proof. unfold set_field. dry_auto. Qed.

Lemma frames_set_current_phase q : frames before (set_current_phase q).
Proof. unfold set_current_phase. dry_auto. Qed.

Hint Resolve frames_save_state frames_add_note frames_set_field
     frames_set_current_phase : dry.

Lemma frames_mark_started q : frames before (mark_started E q).
Proof. unfold mark_started. dry_auto. Qed.

Lemma frames_mark_completed q : frames before (mark_completed E q).
Proof. unfold mark_completed. dry_auto. Qed.

Lemma frames_path_exists path : frames before (path_exists path).
Proof. unfold path_exists. dry_auto. Qed.

Lemma frames_ctx_item k : frames before (ctx_item k).
Proof. unfold ctx_item. dry_auto. Qed.

Lemma frames_ctx_set k v : frames before (ctx_set k v).
Proof. unfold ctx_set. dry_auto. Qed.

Lemma frames_ctx_get k v : frames before (ctx_get k v).
Proof. unfold ctx_get. dry_auto. Qed.

Lemma frames_prompt question default : frames before (prompt question default).
Proof. unfold prompt. dry_auto. Qed.

Lemma frames_prompt_value question default :
  frames before (prompt_value question default).
Proof. unfold prompt_value. dry_auto. Qed.

Hint Resolve frames_mark_started frames_mark_completed frames_path_exists
     frames_ctx_item frames_ctx_set frames_ctx_get frames_prompt
     frames_prompt_value : dry.

Lemma frames_prompt_yn question default :
  frames before (prompt_yn question default).
Proof. unfold prompt_yn. dry_auto. Qed.

Lemma frames_run_script cmd : frames before (run_script E cmd true).
Proof. unfold run_script. dry_auto. Qed.

Lemma frames_run_gate q : frames before (run_gate q true).
Proof. unfold run_gate. dry_auto. Qed.

Lemma frames_write_file path content :
  frames before (write_file path content true).
Proof. unfold write_file. dry_auto. Qed.

Lemma frames_repo_file rel : frames before (repo_file E rel).
Proof. unfold repo_file. dry_auto. Qed.

Hint Resolve frames_prompt_yn frames_run_script frames_run_gate
     frames_write_file frames_repo_file : dry.

Lemma frames_copy_asset src dst : frames before (copy_asset E src dst true).
Proof. unfold copy_asset. dry_auto. Qed.

Hint Resolve frames_copy_asset : dry.

Lemma frames_run_requirements : frames before (run_requirements E true).
Proof. unfold run_requirements. dry_auto. Qed.

Lemma frames_run_development : frames before (run_development E true).
Proof. unfold run_development. dry_auto. Qed.

Lemma frames_run_cicd : frames before (run_cicd E true).
Proof. unfold run_cicd. dry_auto. Qed.

Lemma frames_run_testing : frames before (run_testing E true).
Proof. unfold run_testing. dry_auto. Qed.

Lemma frames_run_uat : frames before (run_uat E true).
Proof. unfold run_uat. dry_auto. Qed.

Lemma frames_run_deployment : frames before (run_deployment E true).
Proof. unfold run_deployment. dry_auto. Qed.

Lemma frames_run_monitoring : frames before (run_monitoring E true).
Proof. unfold run_monitoring. dry_auto. Qed.

Lemma frames_handler q handler :
  assoc_get q (PHASE_HANDLERS E) = Some handler ->
  frames before (handler true).
Proof.
  intros Hh. apply assoc_get_In in Hh. simpl in Hh.
  destruct Hh as [Hh|[Hh|[Hh|[Hh|[Hh|[Hh|[Hh|[]]]]]]]];
    injection Hh as <- <-;
    auto using frames_run_requirements, frames_run_development,
               frames_run_cicd, frames_run_testing, frames_run_uat,
               frames_run_deployment, frames_run_monitoring.
Qed.

Lemma frames_gate_loop rounds q : frames before (gate_loop E rounds q true).
Proof.
  induction rounds as [|rounds IH]; simpl; [apply frames_raise|]. dry_auto.
Qed.

Lemma frames_gate_check q : frames before (gate_check E q true).
Proof. intros w Hw. unfold gate_check. now apply frames_gate_loop. Qed.

Hint Resolve frames_gate_check : dry.

Lemma frames_walk_phase idx q : frames before (walk_phase E true idx q).
Proof.
  unfold walk_phase.
  apply frames_bind; [auto with dry|]. intros state.
  apply frames_bind; [auto with dry|]. intros phase_data.
  apply frames_bind; [auto with dry|]. intros [|]; [auto with dry|].
  apply frames_bind; [auto with dry|]. intros _.
  apply frames_bind; [auto with dry|]. intros _.
  apply frames_bind; [auto with dry|]. intros _.
  destruct (assoc_get q (PHASE_HANDLERS E)) as [handler|] eqn:Hh;
    [|apply frames_raise].
  apply frames_bind; [eapply frames_handler; eauto|]. intros _.
  dry_auto.
Qed.

Lemma frames_walk phases : forall idx, frames before (walk E true idx phases).
Proof.
  induction phases as [|q rest IH]; intros idx; simpl.
  - apply frames_ret.
  - apply frames_bind; [apply frames_walk_phase|]. intros _. apply IH.
Qed.

Lemma frames_initialize : frames before (initialize E true).
Proof. unfold initialize, run_init. dry_auto. Qed.

Hint Resolve frames_walk frames_initialize : dry.


End DryRun.


End OrchestrateFacts.

(* ------------------------------------------------------------------ *)
(** ** More about the gate validator *)

Module ValidatorExtras.
Import FS GateValidator Props MoreProps DictFacts GateFacts.

(** *** Patterns *)

Lemma check_pattern_valid d pattern :
  valid_pattern pattern = true ->
  check_pattern d pattern = Val (has_match d pattern).
Proof.
  unfold valid_pattern, check_pattern, rglob, has_match.
  destruct (startswith pattern "/"); [discriminate|]. simpl.
  destruct (split_path pattern); [discriminate|]. reflexivity.
Qed.





(** *** Notes *)




(** *** The validator on a well-formed project *)








(** *** A directory in the place of the PRD *)

Lemma validate_criteria_cons c rest d p f :
  validate_criteria (c :: rest) d p f =
  match criterion_met d c with
  | Val true => validate_criteria rest d (p ++ [description c]) f
  | Val false => validate_criteria rest d p (f ++ [description c])
  | Err e => Err e
  end.
Proof. simpl. destruct (criterion_met d c) as [[|]|]; reflexivity. Qed.

(** X6: when [docs/prd.md] is a directory, the requirements gate is not
    evaluated to the end: the content checker tries to read the
    directory and [validate_phase] raises [IsADirectoryError]. *)
Theorem requirements_gate_raises_on_directory (d : node) :
  is_dir ["docs"; "prd.md"] d = true ->
  validate_phase "requirements" d = Err IsADirectoryError.
Proof.
  intros Hdir. unfold is_dir in Hdir.
  destruct (lookup ["docs"; "prd.md"] d) as [[t j|es]|] eqn:Hl;
    try discriminate.
  unfold validate_phase.
  change (phase_criteria "requirements") with
    [ crit1 "PRD document exists" "check_file" "docs/prd.md";
      crit1 "User stories defined" "check_file_pattern" "docs/user-stories*";
      crit2 "Acceptance criteria present in PRD" "check_content"
            "docs/prd.md" "acceptance criteria";
      crit1 "Technical feasibility assessed" "check_file_pattern"
            "docs/tech-feasibility*";
      crit2 "Stakeholder sign-off recorded" "check_state_note"
            "requirements" "sign-off" ].
  rewrite validate_criteria_cons.
  change (criterion_met d (crit1 "PRD document exists" "check_file"
                                 "docs/prd.md"))
    with (Val (exists_ ["docs"; "prd.md"] d)).
  unfold exists_ at 1. rewrite Hl.
  rewrite validate_criteria_cons.
  change (criterion_met d (crit1 "User stories defined" "check_file_pattern"
                                 "docs/user-stories*"))
    with (check_pattern d "docs/user-stories*").
  rewrite (check_pattern_valid d "docs/user-stories*" eq_refl).
  assert (Hcontent :
            criterion_met d (crit2 "Acceptance criteria present in PRD"
                                   "check_content" "docs/prd.md"
                                   "acceptance criteria")
            = Err IsADirectoryError).
  { change (criterion_met d _) with
      (check_content d (AStr "docs/prd.md") (AStr "acceptance criteria")).
    unfold check_content, as_path, arg_lower, rbind.
    change (split_path "docs/prd.md") with ["docs"; "prd.md"].
    unfold exists_, read_text. rewrite Hl. reflexivity. }
  destruct (has_match d "docs/user-stories*");
    rewrite validate_criteria_cons, Hcontent; reflexivity.
Qed.

Lemma requirements_gate_raises_on_directory_witness :
  validate_phase "requirements" docs_prd_is_a_directory
  = Err IsADirectoryError.
Proof.
  exact (requirements_gate_raises_on_directory docs_prd_is_a_directory
           eq_refl).
Defined.

(** *** Phase ids *)

Lemma unknown_phase_has_no_criteria phase :
  ~ In phase PHASE_ORDER -> phase_criteria phase = [].
Proof.
  intros Hnot. unfold phase_criteria.
  destruct (assoc_get phase GATE_CRITERIA) as [cs|] eqn:Hp; [|reflexivity].
  exfalso. apply Hnot. apply assoc_get_In in Hp. simpl in Hp. simpl.
  repeat (destruct Hp as [Hp|Hp]; [injection Hp as <- _; tauto|]).
  destruct Hp.
Qed.

Lemma known_phase_has_criteria phase :
  In phase PHASE_ORDER -> phase_criteria phase <> [].
Proof.
  simpl. intros H.
  repeat (destruct H as [<-|H]; [discriminate|]). destruct H.
Qed.

(** X2: [validate_phase] answers with two empty lists exactly for the
    names that are no phase id: an unknown phase passes vacuously, a
    phase of the registry never does. *)
Theorem validate_phase_empty_iff_unknown (phase : string) (d : node) :
  validate_phase phase d = Val ([], []) <-> ~ In phase PHASE_ORDER.
Proof.
  split.
  - intros Hv Hin. apply (known_phase_has_criteria phase Hin).
    unfold validate_phase in Hv.
    apply validate_criteria_filter in Hv as [Hp Hf]. simpl in Hp, Hf.
    pose proof (filter_lengths (met d) (phase_criteria phase)) as Hlen.
    rewrite <- (length_map description) in Hlen. rewrite <- Hp in Hlen.
    rewrite <- (length_map description
                  (filter (fun x => negb (met d x)) (phase_criteria phase)))
      in Hlen.
    rewrite <- Hf in Hlen. simpl in Hlen.
    destruct (phase_criteria phase); [reflexivity|discriminate].
  - intros Hnot. unfold validate_phase.
    now rewrite (unknown_phase_has_no_criteria phase Hnot).
Qed.

(** *** Output format and exit code *)

(** X5: [--json] changes what is printed, never the exit code. *)
Theorem exit_code_ignores_json (phase : option string) (all : bool)
        (d : node) :
  exit_status (main (CliArgs phase all true) d) =
  exit_status (main (CliArgs phase all false) d).
Proof.
  destruct (phases_to_check (CliArgs phase all true)) as [phases|] eqn:Ht.
  - assert (Hf : phases_to_check (CliArgs phase all false) = Some phases)
      by exact Ht.
    destruct (main_exit_status _ d _ Ht) as [Ht0 Ht1].
    destruct (main_exit_status _ d _ Hf) as [Hf0 Hf1].
    destruct Ht1 as [Ht1|Ht1], Hf1 as [Hf1|Hf1]; try congruence.
    + apply Ht0 in Ht1. apply Hf0 in Ht1. congruence.
    + apply Hf0 in Hf1. apply Ht0 in Hf1. congruence.
  - assert (Hf : phases_to_check (CliArgs phase all false) = None)
      by exact Ht.
    unfold main. now rewrite Ht, Hf.
Qed.

End ValidatorExtras.

(* ------------------------------------------------------------------ *)
(** ** More about initialization *)

Module InitExtras.
Import FS InitSdlc MoreProps DictFacts.

Lemma assoc_set_overwrite {A} (k : string) (v v' : A) d :
  assoc_set k v (assoc_set k v' d) = assoc_set k v d.
Proof.
  induction d as [|[k0 v0] d IH]; simpl.
  - now rewrite String.eqb_refl.
  - destruct (k0 =? k) eqn:Hk; simpl; rewrite Hk; congruence.
Qed.

Lemma assoc_get_remove_same {A} (k : string) (d : list (string * A)) :
  assoc_get k (assoc_remove k d) = None.
Proof.
  induction d as [|[k0 v0] d IH]; simpl; [reflexivity|].
  destruct (k0 =? k) eqn:Hk; simpl; [assumption|]. now rewrite Hk.
Qed.

Lemma assoc_get_remove_other {A} (k k' : string) (d : list (string * A)) :
  k <> k' -> assoc_get k (assoc_remove k' d) = assoc_get k d.
Proof.
  intros Hne. induction d as [|[k0 v0] d IH]; simpl; [reflexivity|].
  destruct (k0 =? k') eqn:Hk0; simpl.
  - apply String.eqb_eq in Hk0. subst k0.
    destruct (k' =? k) eqn:Hk; [|assumption].
    apply String.eqb_eq in Hk. congruence.
  - destruct (k0 =? k); auto.
Qed.

(** What [init_sdlc] does to a directory without [.sdlc]. *)
Lemma init_sdlc_result templates now name es :
  assoc_get ".sdlc" es = None ->
  init_sdlc templates now name (Dir es) None
  = (Dir (assoc_set ".sdlc" (sdlc_tree now name) es), None).
Proof.
  intros Hnone. unfold init_sdlc, exists_.
  simpl. rewrite Hnone. simpl.
  repeat (rewrite ?assoc_get_set_same, ?assoc_set_overwrite; simpl).
  reflexivity.
Qed.

Lemma load_after_init now name es :
  GateValidator.load_state
    (Dir (assoc_set ".sdlc" (sdlc_tree now name) es))
  = Val (create_state now name).
Proof.
  unfold GateValidator.load_state, exists_, read_json,
    GateValidator.state_path.
  simpl. rewrite assoc_get_set_same. reflexivity.
Qed.

(** X7: on a directory that has no [.sdlc], [init_sdlc] without a
    template ends without an exception; it adds the [.sdlc] entry and
    nothing else, and the state document it leaves is the initial state:
    current phase requirements, every one of the seven phases pending,
    no gate passed, no notes. *)
Theorem init_sdlc_on_uninitialized (templates : node) (now name : string)
        (es : list (string * node)) :
  assoc_get ".sdlc" es = None ->
  let result := init_sdlc templates now name (Dir es) None in
  snd result = None /\
  lookup [".sdlc"] (fst result) = Some (sdlc_tree now name) /\
  (forall c rest, c <> ".sdlc" ->
                  lookup (c :: rest) (fst result) = lookup (c :: rest) (Dir es))
  /\
  GateValidator.load_state (fst result) = Val (create_state now name) /\
  getitem (create_state now name) "current_phase" = Val (JStr "requirements")
  /\
  forall p, In p GateValidator.PHASE_ORDER ->
            Orchestrate.phase_record (create_state now name) p
            = Val pending_record.
Proof.
  intros Hnone result. subst result.
  rewrite (init_sdlc_result templates now name es Hnone). simpl fst. simpl snd.
  split; [reflexivity|]. split; [|split; [|split; [|split]]].
  - simpl. now rewrite assoc_get_set_same.
  - intros c rest Hc. simpl. now rewrite assoc_get_set_other.
  - apply load_after_init.
  - reflexivity.
  - simpl. intros p Hp.
    repeat (destruct Hp as [<-|Hp]; [reflexivity|]). destruct Hp.
Qed.

Lemma init_sdlc_on_uninitialized_witness :
  GateValidator.load_state
    (fst (init_sdlc (Dir []) "2026-01-01T00:00:00+00:00" "Demo"
                    (Dir [("README.md", File "# Demo" None)]) None))
  = Val (create_state "2026-01-01T00:00:00+00:00" "Demo").
Proof.
  exact (proj1 (proj2 (proj2 (proj2
           (init_sdlc_on_uninitialized (Dir []) "2026-01-01T00:00:00+00:00"
              "Demo" [("README.md", File "# Demo" None)] eq_refl))))).
Defined.

(** X8: a second [init_sdlc] on the directory the first one left is
    refused with exit code 1, whatever its arguments, and leaves the
    directory, with the state of the first call, as it is. *)
Theorem init_sdlc_twice (templates templates' : node)
        (now name now' name' : string) (template' : option string)
        (es : list (string * node)) :
  assoc_get ".sdlc" es = None ->
  let first := fst (init_sdlc templates now name (Dir es) None) in
  init_sdlc templates' now' name' first template'
  = (first, Some (SystemExit 1)) /\
  GateValidator.load_state first = Val (create_state now name).
Proof.
  intros Hnone first. subst first.
  rewrite (init_sdlc_result templates now name es Hnone). simpl fst.
  split; [|apply load_after_init].
  unfold init_sdlc at 1. unfold exists_. simpl lookup.
  now rewrite assoc_get_set_same.
Qed.

Lemma init_sdlc_twice_witness :
  init_sdlc (Dir []) "2026-02-02T00:00:00+00:00" "Other"
            (fst (init_sdlc (Dir []) "2026-01-01T00:00:00+00:00" "Demo"
                            (Dir []) None))
            None
  = (fst (init_sdlc (Dir []) "2026-01-01T00:00:00+00:00" "Demo" (Dir []) None),
     Some (SystemExit 1)).
Proof.
  exact (proj1 (init_sdlc_twice (Dir []) (Dir [])
                  "2026-01-01T00:00:00+00:00" "Demo"
                  "2026-02-02T00:00:00+00:00" "Other" None [] eq_refl)).
Defined.

(** X9: with [--force] on a project that has a [.sdlc] directory, [main]
    removes that directory and initializes again: the state document is
    the initial state of the new call, whatever the old one recorded, and
    entries outside [.sdlc] are kept.  Without [--force] the same call is
    refused and changes nothing. *)
Theorem force_reinitializes (templates : node) (now name : string)
        (es : list (string * node)) (old : list (string * node)) :
  assoc_get ".sdlc" es = Some (Dir old) ->
  let result := main templates now name None true (Dir es) in
  snd result = None /\
  GateValidator.load_state (fst result) = Val (create_state now name) /\
  (forall c rest, c <> ".sdlc" ->
                  lookup (c :: rest) (fst result) = lookup (c :: rest) (Dir es))
  /\
  main templates now name None false (Dir es)
  = (Dir es, Some (SystemExit 1)).
Proof.
  intros Hold result. subst result. unfold main, exists_. simpl.
  rewrite Hold. simpl.
  rewrite (init_sdlc_result templates now name (assoc_remove ".sdlc" es)
             (assoc_get_remove_same ".sdlc" es)).
  simpl fst. simpl snd. split; [reflexivity|]. split; [|split].
  - apply load_after_init.
  - intros c rest Hc. simpl.
    rewrite assoc_get_set_other by congruence.
    now rewrite assoc_get_remove_other by congruence.
  - unfold init_sdlc, exists_. simpl. now rewrite Hold.
Qed.

Lemma force_reinitializes_witness :
  GateValidator.load_state
    (fst (main (Dir []) "2026-03-03T00:00:00+00:00" "Again" None true
               old_project))
  = Val (create_state "2026-03-03T00:00:00+00:00" "Again").
Proof.
  exact (proj1 (proj2
           (force_reinitializes (Dir []) "2026-03-03T00:00:00+00:00" "Again"
              [ ("README.md", File "# Old" None);
                (".sdlc",
                 Dir [("state.json",
                       JsonText.json_file WalkProps.resumed_state)]) ]
              [("state.json", JsonText.json_file WalkProps.resumed_state)]
              eq_refl))).
Defined.

(** X10: a template that cannot be used (a name outside the template
    map, or a template directory that is not in the repository) ends
    [init_sdlc] with exit code 1 only after the state and the checklists
    are written: the directory is left initialized. *)
Theorem template_failure_leaves_project_initialized
        (templates : node) (now name template : string)
        (es : list (string * node)) :
  assoc_get ".sdlc" es = None ->
  template <> "" ->
  (assoc_get template TEMPLATE_MAP = None \/
   exists template_name,
     assoc_get template TEMPLATE_MAP = Some template_name /\
     lookup [template_name] templates = None) ->
  init_sdlc templates now name (Dir es) (Some template)
  = (Dir (assoc_set ".sdlc" (sdlc_tree now name) es), Some (SystemExit 1)).
Proof.
  intros Hnone Hne Hbad. unfold init_sdlc, exists_.
  apply String.eqb_neq in Hne.
  remember (assoc_get template TEMPLATE_MAP) as mapped eqn:Hmap.
  remember (template =? "") as blank eqn:Hblank.
  simpl. rewrite Hnone. simpl.
  repeat (rewrite ?assoc_get_set_same, ?assoc_set_overwrite; simpl).
  subst blank. rewrite Hne.
  destruct Hbad as [->|[template_name [-> Hmissing]]]; [reflexivity|].
  unfold lookup in Hmissing.
  destruct templates as [|items]; [reflexivity|].
  destruct (assoc_get template_name items); [discriminate|reflexivity].
Qed.

Lemma template_failure_leaves_project_initialized_witness :
  init_sdlc (Dir []) "2026-01-01T00:00:00+00:00" "Demo" (Dir [])
            (Some "nextjs")
  = (Dir [(".sdlc", sdlc_tree "2026-01-01T00:00:00+00:00" "Demo")],
     Some (SystemExit 1)).
Proof.
  refine (template_failure_leaves_project_initialized (Dir [])
            "2026-01-01T00:00:00+00:00" "Demo" "nextjs" [] eq_refl _ _).
  - discriminate.
  - right. exists "nextjs-typescript". split; reflexivity.
Defined.

(** X11: copying a template never replaces an entry the target already
    has, and afterwards every entry of the template is present: an entry
    the target lacked is the template's (the first one of that name). *)
Theorem copy_template_keeps_existing (items : list (string * node))
        (d d' : node) :
  copy_template items d = Val d' ->
  (forall n, exists_ [n] d = true -> lookup [n] d' = lookup [n] d) /\
  (forall n item, assoc_get n items = Some item ->
                  exists_ [n] d = false -> lookup [n] d' = Some item) /\
  (forall n item, In (n, item) items -> exists_ [n] d' = true).
Proof.
  revert d. induction items as [|[name item] items IH]; intros d;
    cbn [copy_template].
  - intros [= <-]. split; [auto|]. split; [discriminate|]. intros n item [].
  - destruct (exists_ [name] d) eqn:Hex.
    + intros H. destruct (IH d H) as (Hkeep & Hadd & Hall).
      split; [exact Hkeep|]. split.
      * intros n it. cbn [assoc_get].
        destruct (String.eqb_spec name n) as [<-|Hn].
        -- intros _ Hno. congruence.
        -- apply Hadd.
      * intros n it [[= <- <-]|Hin]; [|eauto].
        unfold exists_. rewrite (Hkeep name Hex). exact Hex.
    + destruct d as [|es]; [discriminate|].
      intros H. destruct (IH _ H) as (Hkeep & Hadd & Hall).
      assert (Hnew : lookup [name] (Dir (assoc_set name item es)) = Some item).
      { simpl. now rewrite assoc_get_set_same. }
      assert (Hnew' : exists_ [name] (Dir (assoc_set name item es)) = true).
      { unfold exists_. now rewrite Hnew. }
      assert (Hname : assoc_get name es = None).
      { unfold exists_ in Hex. simpl in Hex.
        destruct (assoc_get name es); [discriminate|reflexivity]. }
      assert (Hother : forall n, n <> name ->
                lookup [n] (Dir (assoc_set name item es)) = lookup [n] (Dir es)).
      { intros n Hn. simpl. now rewrite assoc_get_set_other. }
      split; [|split].
      * intros n Hn. destruct (String.eqb_spec name n) as [<-|Hne].
        -- congruence.
        -- rewrite <- Hother by congruence. apply Hkeep.
           unfold exists_ in *. now rewrite Hother by congruence.
      * intros n it. cbn [assoc_get].
        destruct (String.eqb_spec name n) as [<-|Hne].
        -- intros [= <-] _. rewrite (Hkeep name Hnew'). exact Hnew.
        -- intros Hget Hno. apply Hadd; auto.
           unfold exists_ in *. now rewrite Hother by congruence.
      * intros n it [[= <- <-]|Hin]; [|eauto].
        unfold exists_. rewrite (Hkeep name Hnew'), Hnew. reflexivity.
Qed.

Lemma copy_template_keeps_existing_witness :
  lookup ["README.md"]
         (Dir [ ("README.md", File "mine" None);
                ("app", Dir [("main.py", File "app" None)]) ])
  = lookup ["README.md"] (Dir [("README.md", File "mine" None)]).
Proof.
  exact (proj1 (copy_template_keeps_existing
                  [ ("README.md", File "template" None);
                    ("app", Dir [("main.py", File "app" None)]) ]
                  (Dir [("README.md", File "mine" None)])
                  (Dir [ ("README.md", File "mine" None);
                         ("app", Dir [("main.py", File "app" None)]) ])
                  eq_refl)
               "README.md" eq_refl).
Defined.

End InitExtras.

(* ------------------------------------------------------------------ *)
(** ** More about the project tree *)

Module FSExtras.
Import FS DictFacts RunProps.

Lemma fresh_dirs_no_file p q t j : lookup q (fresh_dirs p) <> Some (File t j).
Proof.
  revert q. induction p as [|c rest IH]; intros q; destruct q as [|c' q];
    simpl; try discriminate.
  - destruct (c =? c'); [apply IH|discriminate].
Qed.

(** Making directories changes no file. *)
Lemma mkdir_p_keeps_files p d d' :
  mkdir_p p d = Val d' -> forall q, same_file q d d'.
Proof.
  revert d d'. induction p as [|c rest IH]; intros d d'; simpl.
  - destruct d; [discriminate|]. intros [= <-] q t j. tauto.
  - destruct d as [|es]; [discriminate|].
    destruct (assoc_get c es) as [child|] eqn:Hc.
    + destruct (mkdir_p rest child) as [child'|] eqn:Hm; simpl; [|discriminate].
      intros [= <-] q t j. destruct q as [|c' q]; simpl; [split; discriminate|].
      destruct (String.eqb_spec c' c) as [->|Hne].
      * rewrite assoc_get_set_same, Hc. apply (IH _ _ Hm).
      * rewrite assoc_get_set_other by assumption. tauto.
    + intros [= <-] q t j. destruct q as [|c' q]; simpl; [split; discriminate|].
      destruct (String.eqb_spec c' c) as [->|Hne].
      * rewrite assoc_get_set_same, Hc. split; [|discriminate].
        intros H. exfalso. exact (fresh_dirs_no_file _ _ _ _ H).
      * rewrite assoc_get_set_other by assumption. tauto.
Qed.

(** Writing a file changes no other file. *)
Lemma write_keeps_other_files p text doc d d' :
  write p (File text doc) d = Val d' ->
  forall q, q <> p -> same_file q d d'.
Proof.
  revert d d'. induction p as [|c rest IH]; intros d d'; simpl.
  - destruct d; [|discriminate]. intros [= <-] q Hq t j.
    destruct q; [congruence|]. simpl. tauto.
  - destruct d as [|es]; [discriminate|].
    destruct (assoc_get c es) as [child|] eqn:Hc.
    + destruct (write rest (File text doc) child) as [child'|] eqn:Hw; simpl;
        [|discriminate].
      intros [= <-] q Hq t j.
      destruct q as [|c' q]; simpl; [split; discriminate|].
      destruct (String.eqb_spec c' c) as [->|Hne].
      * rewrite assoc_get_set_same, Hc. apply (IH _ _ Hw). congruence.
      * rewrite assoc_get_set_other by assumption. tauto.
    + destruct rest; [|discriminate]. intros [= <-] q Hq t j.
      destruct q as [|c' q]; simpl; [split; discriminate|].
      destruct (String.eqb_spec c' c) as [->|Hne].
      * rewrite assoc_get_set_same, Hc.
        destruct q; [congruence|]. simpl. split; discriminate.
      * rewrite assoc_get_set_other by assumption. tauto.
Qed.

Lemma same_file_trans q d1 d2 d3 :
  same_file q d1 d2 -> same_file q d2 d3 -> same_file q d1 d3.
Proof. intros H12 H23 t j. rewrite (H23 t j). apply H12. Qed.


End FSExtras.

(* ------------------------------------------------------------------ *)
(** ** More about the orchestrator *)

Module OrchestrateExtras.
Import FS Orchestrate WalkProps MoreProps RunProps DictFacts FSFacts FSExtras.

(** *** Reading a computation backwards *)

Lemma bind_ok {A B} (m : M A) (f : A -> M B) w b w' :
  bind m f w = Ok b w' ->
  exists a w1, m w = Ok a w1 /\ f a w1 = Ok b w'.
Proof.
  unfold bind. destruct (m w) as [a w1|e w1]; [eauto|discriminate].
Qed.

Lemma lift_ok {A} (x : res A) w a w' :
  lift x w = Ok a w' -> x = Val a /\ w' = w.
Proof. destruct x; simpl; [intros [= <- <-]; auto|discriminate]. Qed.

Lemma emit_ok ev w u w' : emit ev w = Ok u w' -> w' = printed w ev.
Proof. intros [= _ <-]. reflexivity. Qed.

(** *** Prompts *)

Lemma choose_spec choices default lines :
  match choose choices default lines with
  | Some (a, rest) =>
      In a choices /\
      exists skipped line,
        lines = skipped ++ line :: rest /\ answer default line = a /\
        forall l, In l skipped -> ~ In (answer default l) choices
  | None => forall l, In l lines -> ~ In (answer default l) choices
  end.
Proof.
  induction lines as [|line lines IH]; simpl; [intros l []|].
  fold (answer default line).
  destruct (mem_string (answer default line) choices) eqn:Hm.
  - split; [now apply mem_string_In|].
    exists [], line. split; [reflexivity|]. split; [reflexivity|].
    intros l [].
  - assert (Hnot : ~ In (answer default line) choices).
    { intros Hin. apply mem_string_In in Hin. congruence. }
    destruct (choose choices default lines) as [[a rest]|].
    + destruct IH as [Hin (skipped & l0 & -> & Ha & Hsk)].
      split; auto. exists (line :: skipped), l0. repeat split; auto.
      intros l [<-|Hl]; auto.
    + intros l [<-|Hl]; auto.
Qed.

(** X19: [prompt_choice] only ever returns one of the choices: it reads
    lines until the first whose answer (the line stripped, or the default
    for a blank line) is a choice, and takes nothing after it; if no line
    gives a choice it ends with [EOFError], all input read. *)
Theorem prompt_choice_returns_a_choice (question : string)
        (choices : list string) (default : string) (w : world) :
  match prompt_choice question choices default w with
  | Ok a w' =>
      In a choices /\ w' = with_input w (w_in w') /\
      exists skipped line,
        w_in w = skipped ++ line :: w_in w' /\ answer default line = a /\
        forall l, In l skipped -> ~ In (answer default l) choices
  | Raise e w' =>
      e = EOFError /\ w' = with_input w [] /\
      forall l, In l (w_in w) -> ~ In (answer default l) choices
  end.
Proof.
  unfold prompt_choice. pose proof (choose_spec choices default (w_in w)) as H.
  destruct (choose choices default (w_in w)) as [[a rest]|].
  - destruct H as [Hin Hsk]. repeat split; auto.
  - repeat split; auto.
Qed.

(** *** Files written by the orchestrator *)

(** X20: outside a dry run, when [write_file] returns, the file is at
    its path with the content given, missing parent directories have
    been made, no other file has changed, and the terminal shows the
    creation; the state is not touched. *)
Theorem write_file_round_trip (path : string) (text : string)
        (doc : option json) (w w' : world) :
  write_file path (File text doc) false w = Ok tt w' ->
  lookup (split_path path) (w_fs w') = Some (File text doc) /\
  (forall q, q <> split_path path -> same_file q (w_fs w) (w_fs w')) /\
  w_state w' = w_state w /\
  w_out w' = w_out w ++ [EvCreated (split_path path)].
Proof.
  unfold write_file. intros H.
  apply bind_ok in H as (d & w1 & Hd & H). injection Hd as <- <-.
  apply bind_ok in H as (d1 & w1 & Hm & H). apply lift_ok in Hm as [Hm ->].
  apply bind_ok in H as (d2 & w2 & Hw & H). apply lift_ok in Hw as [Hw ->].
  apply bind_ok in H as ([] & w3 & Hp & H). injection Hp as <-.
  apply emit_ok in H. subst w'. simpl.
  split; [|split; [|split]]; auto.
  - eapply lookup_write; eauto.
  - intros q Hq. eapply same_file_trans.
    + eapply mkdir_p_keeps_files; eauto.
    + eapply write_keeps_other_files; eauto.
Qed.

Lemma write_file_round_trip_witness :
  let w := start (Dir []) [] in
  let w' := final (write_file "docs/prd.md" (File "# PRD" None) false w) in
  write_file "docs/prd.md" (File "# PRD" None) false w = Ok tt w' /\
  lookup ["docs"; "prd.md"] (w_fs w') = Some (File "# PRD" None).
Proof.
  split; [reflexivity|].
  exact (proj1 (write_file_round_trip "docs/prd.md" "# PRD" None
                  (start (Dir []) [])
                  (final (write_file "docs/prd.md" (File "# PRD" None) false
                            (start (Dir []) [])))
                  eq_refl)).
Defined.

(** X22: outside a dry run, when [save_state] returns, the only file it
    has changed is the state document, the only key of the state it has
    changed is [updated_at] (every phase record is as before), and
    nothing was printed or read. *)
Theorem save_state_touches_only_the_document (E : env) (w w' : world) :
  save_state E false w = Ok tt w' ->
  (forall q, q <> state_path -> same_file q (w_fs w) (w_fs w')) /\
  (forall p, phase_record (w_state w') p = phase_record (w_state w) p) /\
  (forall key, key <> "updated_at" ->
               getitem (w_state w') key = getitem (w_state w) key) /\
  w_out w' = w_out w /\ w_in w' = w_in w /\ w_ctx w' = w_ctx w.
Proof.
  unfold save_state. intros H.
  apply bind_ok in H as (now & w1 & Hn & H). injection Hn as <- <-.
  apply bind_ok in H as (state & w1 & Hs & H). injection Hs as <- <-.
  apply bind_ok in H as (state' & w1 & Hu & H). apply lift_ok in Hu as [Hu ->].
  apply bind_ok in H as ([] & w1 & Hp & H). injection Hp as <-.
  apply bind_ok in H as (d & w1 & Hd & H). injection Hd as <- <-.
  apply bind_ok in H as (d' & w1 & Hw & H). apply lift_ok in Hw as [Hw ->].
  injection H as <-. cbn [w_fs w_state w_ctx w_in w_out w_time] in *.
  split; [|split; [|split; [|split; [|split]]]]; auto.
  - intros q Hq. unfold JsonText.json_file in Hw.
    eapply write_keeps_other_files; eauto.
  - intros p. eapply OrchestrateFacts.setitem_top_other; eauto. discriminate.
  - intros key Hkey. unfold setitem in Hu.
    destruct (w_state w); try discriminate. injection Hu as <-. simpl.
    now rewrite assoc_get_set_other.
Qed.

Lemma save_state_touches_only_the_document_witness :
  let w := World initialized_dir resumed_state [] [] [] 0 in
  phase_record (w_state (final (save_state quiet false w))) "requirements"
  = phase_record resumed_state "requirements".
Proof.
  exact (proj1 (proj2 (save_state_touches_only_the_document quiet
                  (World initialized_dir resumed_state [] [] [] 0)
                  (final (save_state quiet false
                            (World initialized_dir resumed_state [] [] [] 0)))
                  eq_refl))
               "requirements").
Defined.

(** *** Dry runs *)




(** *** Corrupted and missing state *)



(** *** Phase records *)


Lemma set_phase_field_read state q key value state' :
  set_phase_field state q key value = Val state' ->
  exists fields,
    phase_record state q = Val (JObj fields) /\
    phase_record state' q = Val (JObj (assoc_set key value fields)).
Proof.
  unfold set_phase_field, phase_record, getitem, setitem, rbind.
  destruct state as [| | | | |d]; try discriminate.
  destruct (assoc_get "phases" d) as [phases|] eqn:Hd; [|discriminate].
  destruct phases as [| | | | |ph]; try discriminate.
  destruct (assoc_get q ph) as [record|]; [|discriminate].
  destruct record as [| | | | |fields]; try discriminate.
  intros [= <-]. exists fields. split; [reflexivity|].
  now rewrite !assoc_get_set_same.
Qed.

Lemma set_field_ok q key value w u w' :
  set_field q key value w = Ok u w' ->
  exists state', set_phase_field (w_state w) q key value = Val state' /\
                 w' = with_state w state'.
Proof.
  unfold set_field. intros H.
  apply bind_ok in H as (state & w1 & Hs & H). injection Hs as <- <-.
  apply bind_ok in H as (state' & w1 & Hu & H). apply lift_ok in Hu as [Hu ->].
  injection H as _ <-. eauto.
Qed.

Lemma mark_completed_ok E q w w' :
  mark_completed E q w = Ok tt w' ->
  recorded_completed (w_state w') q /\
  w_fs w' = w_fs w /\ w_out w' = w_out w /\ w_in w' = w_in w.
Proof.
  unfold mark_completed. intros H.
  apply bind_ok in H as (u1 & w1 & H1 & H).
  apply set_field_ok in H1 as (s1 & Hs1 & ->).
  apply bind_ok in H as (now & w2 & Hn & H). injection Hn as <- <-.
  apply bind_ok in H as (u3 & w3 & H3 & H).
  apply set_field_ok in H3 as (s3 & Hs3 & ->).
  apply set_field_ok in H as (s4 & Hs4 & ->).
  cbn [with_state tick w_fs w_state w_ctx w_in w_out w_time] in *.
  apply set_phase_field_read in Hs1 as (f1 & _ & R1).
  apply set_phase_field_read in Hs3 as (f3 & R3 & R3').
  apply set_phase_field_read in Hs4 as (f4 & R4 & R4').
  rewrite R1 in R3. injection R3 as <-.
  rewrite R3' in R4. injection R4 as <-.
  split; [|auto]. eexists. split; [exact R4'|].
  unfold already_completed, dict_get, rbind.
  rewrite assoc_get_set_other by discriminate.
  rewrite assoc_get_set_other by discriminate.
  rewrite assoc_get_set_same. simpl.
  now rewrite assoc_get_set_same.
Qed.

Lemma save_state_loads E w w' :
  save_state E false w = Ok tt w' -> load_state (w_fs w') = Val (w_state w').
Proof.
  unfold save_state. intros H.
  apply bind_ok in H as (now & w1 & Hn & H). injection Hn as <- <-.
  apply bind_ok in H as (state & w1 & Hs & H). injection Hs as <- <-.
  apply bind_ok in H as (state' & w1 & Hu & H). apply lift_ok in Hu as [Hu ->].
  apply bind_ok in H as ([] & w1 & Hp & H). injection Hp as <-.
  apply bind_ok in H as (d & w1 & Hd & H). injection Hd as <- <-.
  apply bind_ok in H as (d' & w1 & Hw & H). apply lift_ok in Hw as [Hw ->].
  injection H as <-. cbn [w_fs w_state w_ctx w_in w_out w_time] in *.
  apply lookup_write in Hw. unfold load_state, exists_, read_json.
  now rewrite Hw.
Qed.

Lemma save_state_records E dry_run w p :
  phase_record (w_state (final (save_state E dry_run w))) p
  = phase_record (w_state w) p.
Proof.
  destruct dry_run; [reflexivity|].
  unfold save_state, bind, utc_now, get_state, put_state, get_fs, put_fs, lift.
  cbn [w_fs w_state w_ctx w_in w_out w_time].
  destruct (setitem (w_state w) "updated_at" (JStr (clock E (w_time w))))
    as [state'|e] eqn:Hu; cbn [ret raise final w_state]; [|reflexivity].
  assert (Hrec : phase_record state' p = phase_record (w_state w) p).
  { eapply OrchestrateFacts.setitem_top_other; eauto. discriminate. }
  match goal with
  | |- context [write ?a ?b ?c] => destruct (write a b c)
  end; cbn [ret raise final w_state]; exact Hrec.
Qed.

(** X18: once [mark_completed] and [save_state] have returned for a
    phase, the document on disk records the phase as completed with its
    gate passed, and a later walk over that state skips the phase: the
    iteration prints the skip line and does nothing else. *)
Theorem completed_and_saved_is_skipped (E : env) (q : string)
        (w w1 w2 : world) :
  mark_completed E q w = Ok tt w1 ->
  save_state E false w1 = Ok tt w2 ->
  load_state (w_fs w2) = Val (w_state w2) /\
  recorded_completed (w_state w2) q /\
  forall E' dry_run idx w3,
    w_state w3 = w_state w2 ->
    walk_phase E' dry_run idx q w3 = Ok tt (printed w3 (EvSkip q)).
Proof.
  intros Hm Hs. apply mark_completed_ok in Hm as [[r [Hr Hc]] _].
  pose proof (save_state_records E false w1 q) as Hrec.
  rewrite Hs in Hrec. simpl final in Hrec. rewrite Hr in Hrec.
  split; [now apply save_state_loads with (E := E) (w := w1)|].
  split; [exists r; auto|].
  intros E' dry_run idx w3 Hw3.
  apply OrchestrateFacts.walk_phase_skips with (r := r); auto.
  now rewrite Hw3.
Qed.

Lemma completed_and_saved_is_skipped_witness :
  let w := World blocked_project resumed_state [] [] [] 0 in
  let w1 := final (mark_completed quiet "development" w) in
  let w2 := final (save_state quiet false w1) in
  recorded_completed (w_state w2) "development".
Proof.
  exact (proj1 (proj2 (completed_and_saved_is_skipped quiet "development"
           (World blocked_project resumed_state [] [] [] 0)
           (final (mark_completed quiet "development"
                     (World blocked_project resumed_state [] [] [] 0)))
           (final (save_state quiet false
                     (final (mark_completed quiet "development"
                               (World blocked_project resumed_state
                                      [] [] [] 0)))))
           eq_refl eq_refl))).
Defined.

(** *** Notes *)

Lemma note_present note l :
  existsb (fun x => match x with JStr s => s =? note | _ => false end) l
  = true <-> In (JStr note) l.
Proof.
  rewrite existsb_exists. split.
  - intros [x [Hin Hx]]. destruct x; try discriminate.
    apply String.eqb_eq in Hx. now subst.
  - intros Hin. exists (JStr note). split; auto. apply String.eqb_refl.
Qed.

Lemma append_note_again notes note notes' :
  append_note notes note = Val notes' -> append_note notes' note = Val notes'.
Proof.
  unfold append_note. destruct notes as [| | |s|l|d]; try discriminate.
  - destruct (contains note s) eqn:Hc; [|discriminate].
    intros [= <-]. now rewrite Hc.
  - destruct (existsb _ l) eqn:Hx.
    + intros [= <-]. now rewrite Hx.
    + intros [= <-]. rewrite existsb_app, Hx. simpl.
      now rewrite String.eqb_refl.
  - destruct (assoc_get note d) eqn:Hg; [|discriminate].
    intros [= <-]. now rewrite Hg.
Qed.

Lemma add_note_to_inv state q note state' :
  add_note_to state q note = Val state' ->
  exists d ph fields notes',
    state = JObj d /\ assoc_get "phases" d = Some (JObj ph) /\
    assoc_get q ph = Some (JObj fields) /\
    append_note (match assoc_get "notes" fields with
                 | Some n => n
                 | None => JArr []
                 end) note = Val notes' /\
    state' = JObj (assoc_set "phases"
                     (JObj (assoc_set q
                              (JObj (assoc_set "notes" notes' fields)) ph))
                     d).
Proof.
  unfold add_note_to, getitem, setitem, rbind.
  destruct state as [| | | | |d]; try discriminate.
  destruct (assoc_get "phases" d) as [phases|] eqn:Hd; [|discriminate].
  destruct phases as [| | | | |ph]; try discriminate.
  destruct (assoc_get q ph) as [record|] eqn:Hq; [|discriminate].
  destruct record as [| | | | |fields]; try discriminate.
  destruct (append_note _ note) as [notes'|] eqn:Ha; [|discriminate].
  intros [= <-]. exists d, ph, fields, notes'. auto.
Qed.

Lemma add_note_to_notes state q note state' :
  add_note_to state q note = Val state' ->
  exists notes notes',
    phase_notes state q = Val notes /\
    append_note notes note = Val notes' /\
    phase_notes state' q = Val notes'.
Proof.
  intros H. apply add_note_to_inv in H
    as (d & ph & fields & notes' & -> & Hd & Hq & Ha & ->).
  unfold phase_notes, phase_record, getitem, dict_get, rbind.
  rewrite Hd, Hq. rewrite !assoc_get_set_same.
  eexists. exists notes'. split; [reflexivity|]. split; [exact Ha|].
  reflexivity.
Qed.

(** X17: [add_note] suppresses duplicates.  Adding the same note again
    changes nothing; on a list of notes the result holds the note, keeps
    the notes there were in their order, appends the note only when it
    was not there, and is free of duplicates when the list was. *)
Theorem add_note_suppresses_duplicates (state : json) (q note : string)
        (state' : json) :
  add_note_to state q note = Val state' ->
  add_note_to state' q note = Val state' /\
  forall l, phase_notes state q = Val (JArr l) ->
    exists l',
      phase_notes state' q = Val (JArr l') /\
      In (JStr note) l' /\
      (In (JStr note) l -> l' = l) /\
      (~ In (JStr note) l -> l' = l ++ [JStr note]) /\
      (NoDup l -> NoDup l').
Proof.
  intros H. split.
  - apply add_note_to_inv in H
      as (d & ph & fields & notes' & -> & Hd & Hq & Ha & ->).
    unfold add_note_to, getitem, setitem, rbind.
    rewrite !assoc_get_set_same.
    rewrite (append_note_again _ _ _ Ha).
    now rewrite !OrchestrateFacts.assoc_set_twice.
  - intros l Hl. apply add_note_to_notes in H as (notes & notes' & Hn & Ha & Hn').
    rewrite Hl in Hn. injection Hn as <-. unfold append_note in Ha.
    destruct (existsb _ l) eqn:Hx; injection Ha as <-.
    + apply note_present in Hx. exists l. repeat split; auto. tauto.
    + assert (Hnot : ~ In (JStr note) l).
      { intros Hin. apply note_present in Hin. congruence. }
      exists (l ++ [JStr note]). repeat split; auto.
      * apply in_or_app. right. now left.
      * tauto.
      * intros Hnd. apply NoDup_app; auto.
        -- constructor; [intros []|constructor].
        -- intros x Hx1 [<-|[]]. auto.
Qed.

Lemma add_note_suppresses_duplicates_witness :
  let once :=
    match add_note_to resumed_state "development" "Code review done" with
    | Val s => s
    | Err _ => JNull
    end in
  add_note_to once "development" "Code review done" = Val once /\
  phase_notes once "development" = Val (JArr [JStr "Code review done"]).
Proof.
  split; [|reflexivity].
  exact (proj1 (add_note_suppresses_duplicates resumed_state "development"
                  "Code review done"
                  match add_note_to resumed_state "development"
                                    "Code review done" with
                  | Val s => s
                  | Err _ => JNull
                  end
                  eq_refl)).
Defined.






(** *** The gate loop *)

(** X13: outside a dry run [run_gate] says yes exactly when the
    validator returns an empty failed list for the phase, and changes
    nothing; in a dry run it says yes without looking at the project. *)
Theorem run_gate_verdict (q : string) (w : world) :
  In q PHASE_ORDER ->
  (exists verdict,
      run_gate q false w = Ok verdict w /\
      (verdict = true <-> Props.gate_passes (w_fs w) q)) /\
  run_gate q true w = Ok true (printed w (EvDryRunGate q)).
Proof.
  intros Hq. split; [|reflexivity].
  now apply OrchestrateFacts.run_gate_follows_validator.
Qed.

Lemma run_gate_verdict_witness :
  exists verdict,
    run_gate "testing" false (start Props.empty_dir []) =
      Ok verdict (start Props.empty_dir []) /\
    (verdict = true <-> Props.gate_passes Props.empty_dir "testing").
Proof.
  exact (proj1 (run_gate_verdict "testing" (start Props.empty_dir [])
                  (or_intror (or_intror (or_intror (or_introl eq_refl)))))).
Defined.

Lemma prompt_choice_ok question choices default w a w' :
  prompt_choice question choices default w = Ok a w' ->
  w' = with_input w (w_in w').
Proof.
  unfold prompt_choice.
  destruct (choose choices default (w_in w)) as [[a' rest]|]; [|discriminate].
  intros [= _ <-]. reflexivity.
Qed.

Lemma input_ok w a w' : input w = Ok a w' -> w' = with_input w (w_in w').
Proof.
  unfold input. destruct (w_in w); [discriminate|].
  intros [= _ <-]. reflexivity.
Qed.

Lemma save_state_touches_only_the_document_aux E w w' :
  save_state E false w = Ok tt w' -> w_out w' = w_out w /\ w_in w' = w_in w.
Proof.
  unfold save_state. intros H.
  apply bind_ok in H as (now & w1 & Hn & H). injection Hn as <- <-.
  apply bind_ok in H as (state & w1 & Hs & H). injection Hs as <- <-.
  apply bind_ok in H as (state' & w1 & Hu & H). apply lift_ok in Hu as [Hu ->].
  apply bind_ok in H as ([] & w1 & Hp & H). injection Hp as <-.
  apply bind_ok in H as (d & w1 & Hd & H). injection Hd as <- <-.
  apply bind_ok in H as (d' & w1 & Hw & H). apply lift_ok in Hw as [Hw ->].
  injection H as <-. split; reflexivity.
Qed.

Lemma save_state_ok_frame E dry_run w w' :
  save_state E dry_run w = Ok tt w' ->
  w_out w' = w_out w /\ w_in w' = w_in w /\
  forall p, phase_record (w_state w') p = phase_record (w_state w) p.
Proof.
  intros H. pose proof (save_state_records E dry_run w) as Hrec.
  rewrite H in Hrec. simpl final in Hrec.
  destruct dry_run.
  - injection H as <-. auto.
  - destruct (save_state_touches_only_the_document_aux E w w' H)
      as (Ho & Hi). auto.
Qed.

Lemma run_gate_ok q dry_run w verdict w' :
  In q PHASE_ORDER ->
  run_gate q dry_run w = Ok verdict w' ->
  w_fs w' = w_fs w /\ w_state w' = w_state w /\ w_in w' = w_in w /\
  (dry_run = false -> verdict = true -> Props.gate_passes (w_fs w) q).
Proof.
  intros Hq H. destruct dry_run.
  - injection H as <- <-. repeat split; auto. discriminate.
  - destruct (OrchestrateFacts.run_gate_follows_validator q w Hq)
      as (v & Hv & Hiff).
    rewrite Hv in H. injection H as <- <-. repeat split; auto.
    intros _. apply Hiff.
Qed.

Lemma recorded_after_save E dry_run q w w' :
  recorded_completed (w_state w) q ->
  save_state E dry_run w = Ok tt w' ->
  recorded_completed (w_state w') q.
Proof.
  intros [r [Hr Hc]] H. exists r. split; auto.
  destruct (save_state_ok_frame E dry_run w w' H) as (_ & _ & Hrec).
  now rewrite Hrec.
Qed.

(** What the gate loop has done when it returns. *)
Lemma gate_loop_ok E q dry_run :
  In q PHASE_ORDER ->
  forall rounds w w',
    gate_loop E rounds q dry_run w = Ok tt w' ->
    recorded_completed (w_state w') q /\
    (dry_run = false ->
     Props.gate_passes (w_fs w) q \/ In (EvSkipGate q) (w_out w')).
Proof.
  intros Hq. induction rounds as [|rounds IH]; intros w w' H; [discriminate|].
  cbn [gate_loop] in H.
  apply bind_ok in H as ([] & w1 & He & H). apply emit_ok in He. subst w1.
  apply bind_ok in H as (verdict & w2 & Hg & H).
  apply (run_gate_ok q dry_run _ _ _ Hq) in Hg as (Hfs & Hst & Hin & Hpass).
  cbn [printed w_fs w_state w_in] in Hfs, Hst, Hin.
  destruct verdict.
  - apply bind_ok in H as ([] & w3 & He & H). apply emit_ok in He. subst w3.
    apply bind_ok in H as ([] & w4 & Hm & H).
    apply mark_completed_ok in Hm as (Hrec & _).
    split; [eapply recorded_after_save; eauto|].
    intros Hdry. left. auto.
  - apply bind_ok in H as ([] & w3 & He & H). apply emit_ok in He. subst w3.
    apply bind_ok in H as (action & w4 & Hp & H).
    apply prompt_choice_ok in Hp.
    destruct (action =? "quit").
    { apply bind_ok in H as ([] & w5 & _ & H).
      apply bind_ok in H as ([] & w6 & _ & H). discriminate. }
    destruct (action =? "skip").
    { apply bind_ok in H as ([] & w5 & He & H). apply emit_ok in He. subst w5.
      apply bind_ok in H as ([] & w6 & Hm & H).
      apply mark_completed_ok in Hm as (Hrec & _ & Hout & _).
      split; [eapply recorded_after_save; eauto|].
      intros _. right.
      destruct (save_state_ok_frame E dry_run _ _ H) as (Ho & _).
      rewrite Ho, Hout. cbn [printed w_out]. apply in_or_app. right. now left. }
    assert (Hfs4 : w_fs w4 = w_fs w).
    { rewrite Hp. cbn [with_input printed w_fs]. exact Hfs. }
    destruct (action =? "fix").
    + apply bind_ok in H as (l & w5 & Hi & H). apply input_ok in Hi.
      destruct (IH _ _ H) as [Hrec Hor]. split; auto.
      intros Hdry. destruct (Hor Hdry) as [Hpassed|Hskip]; auto.
      left. rewrite Hi in Hpassed. cbn [with_input w_fs] in Hpassed.
      now rewrite Hfs4 in Hpassed.
    + destruct (IH _ _ H) as [Hrec Hor]. split; auto.
      intros Hdry. destruct (Hor Hdry) as [Hpassed|Hskip]; auto.
      left. now rewrite Hfs4 in Hpassed.
Qed.



Lemma write_error p f : forall d e, write p f d = Err e ->
  e = IsADirectoryError \/ e = NotADirectoryError \/ e = FileNotFoundError.
Proof.
  induction p as [|c rest IH]; intros d e H; destruct d as [t j|es];
    cbn [write] in H; try (injection H as <-; auto); try discriminate.
  destruct (assoc_get c es) as [child|].
  - unfold rbind in H.
    destruct (write rest f child) as [child'|e'] eqn:Hw; [discriminate|].
    injection H as <-. eauto.
  - destruct rest; [discriminate|]. injection H as <-. auto.
Qed.

(** A failed [save_state]: the directory is as before and the exception
    is none of the script's own exits. *)
Lemma save_state_raise E w e w' :
  save_state E false w = Raise e w' ->
  w_fs w' = w_fs w /\ w_in w' = w_in w /\ w_out w' = w_out w /\
  forall code, e <> SystemExit code.
Proof.
  unfold save_state, bind, utc_now, get_state, put_state, get_fs, put_fs, lift.
  cbn [w_fs w_state w_ctx w_in w_out w_time].
  destruct (setitem (w_state w) "updated_at" (JStr (clock E (w_time w))))
    as [state'|e0] eqn:Hu; cbn [ret raise].
  - match goal with
    | |- context [write ?a ?b ?c] => destruct (write a b c) as [d'|e1] eqn:Hw
    end; cbn [ret raise]; [discriminate|].
    intros [= <- <-]. cbn [w_fs w_in w_out]. repeat split; auto.
    intros code ->. apply write_error in Hw as [|[|]]; discriminate.
  - intros [= <- <-]. cbn [w_fs w_in w_out]. repeat split; auto.
    intros code ->. destruct (w_state w); discriminate.
Qed.

(** X15: when the validator blocks the gate and the operator answers
    "quit", the gate check does not return: the phase records are as
    they were, the answer is the only line read, and the script leaves
    with status 0 once the state is saved; if saving fails, the failure
    is raised instead and the directory is as before. *)
Theorem quit_leaves_phase_open (E : env) (q : string) (w : world)
        (line : string) (rest : list string) :
  In q PHASE_ORDER ->
  ~ Props.gate_passes (w_fs w) q ->
  w_in w = line :: rest ->
  strip line = "quit" ->
  exists e w',
    gate_check E q false w = Raise e w' /\
    w_in w' = rest /\
    (forall p, phase_record (w_state w') p = phase_record (w_state w) p) /\
    (e = SystemExit 0 /\ load_state (w_fs w') = Val (w_state w') \/
     (forall code, e <> SystemExit code) /\ w_fs w' = w_fs w).
Proof.
  intros Hq Hblocked Hin Hline.
  unfold gate_check. rewrite Hin. cbn [length gate_loop].
  destruct (OrchestrateFacts.run_gate_follows_validator q
              (printed w (EvGateCheck q)) Hq) as (v & Hv & Hiff).
  destruct v; [exfalso; apply Hblocked; now apply Hiff|].
  unfold bind at 1. cbn [emit]. fold (printed w (EvGateCheck q)).
  unfold bind at 1. rewrite Hv.
  unfold bind at 1. cbn [emit].
  unfold bind at 1. unfold prompt_choice.
  cbn [printed w_in w_fs w_state w_ctx w_out w_time]. rewrite Hin.
  cbn [choose]. rewrite Hline.
  change (mem_string (if "quit" =? "" then "retry" else "quit")
            ["retry"; "fix"; "skip"; "quit"]) with true.
  cbv iota. change ("quit" =? "" ) with false. cbv iota.
  change ("quit" =? "quit") with true. cbv iota.
  unfold bind at 1. cbn [emit w_in w_fs w_state w_ctx w_out w_time].
  unfold bind at 1.
  match goal with
  | |- context [save_state E false ?x] =>
      set (w1 := x);
      pose proof (save_state_records E false w1) as Hrec;
      destruct (save_state E false w1) as [[] w2|e w2] eqn:Hs
  end.
  - exists (SystemExit 0), w2. split; [reflexivity|].
    destruct (save_state_ok_frame E false _ _ Hs) as (_ & Hi & _).
    split; [now rewrite Hi|]. split; [exact Hrec|].
    left. split; [reflexivity|]. now apply save_state_loads with (E := E) (w := w1).
  - exists e, w2. split; [reflexivity|].
    apply save_state_raise in Hs as (Hfs & Hi & _ & He).
    split; [now rewrite Hi|]. split; [exact Hrec|].
    right. split; auto.
Qed.

Lemma quit_leaves_phase_open_witness :
  exists e w',
    gate_check quiet "development" false
      (World blocked_project resumed_state [] [" quit "; "skip"] [] 0) =
      Raise e w' /\
    w_in w' = ["skip"].
Proof.
  destruct (quit_leaves_phase_open quiet "development"
              (World blocked_project resumed_state [] [" quit "; "skip"] [] 0)
              " quit " ["skip"]
              (or_intror (or_introl eq_refl))) as (e & w' & H & Hi & _).
  - intros [passed Hpass]. vm_compute in Hpass. discriminate Hpass.
  - reflexivity.
  - reflexivity.
  - exists e, w'. split; [exact H|exact Hi].
Defined.

(** *** What a finished walk leaves in the state *)

Section Records.

Variable E : env.
Variable p : string.
Variable r : json.

Lemma up_ret {A} (a : A) : upholds (has_record p r) (ret a).
Proof. intros w H. exact H. Qed.

Lemma up_raise {A} e : upholds (has_record p r) (@raise A e).
Proof. intros w H. exact H. Qed.

Lemma up_bind {A B} (m : M A) (f : A -> M B) :
  upholds (has_record p r) m -> (forall a, upholds (has_record p r) (f a)) ->
  upholds (has_record p r) (bind m f).
Proof.
  intros Hm Hf w Hw. specialize (Hm w Hw). unfold bind.
  destruct (m w) as [a w'|e w']; cbn [final] in *; auto. now apply Hf.
Qed.

Lemma up_lift {A} (x : res A) : upholds (has_record p r) (lift x).
Proof. destruct x; [apply up_ret | apply up_raise]. Qed.

Lemma up_when b m :
  upholds (has_record p r) m -> upholds (has_record p r) (when b m).
Proof. destruct b; cbn [when]; auto using up_ret. Qed.

Lemma still_up {A} (m : M A) : still m -> upholds (has_record p r) m.
Proof. intros Hs w Hw. now rewrite (Hs w). Qed.

Lemma still_get_fs : still get_fs.
Proof. intros w. reflexivity. Qed.

Lemma still_put_fs d : still (put_fs d).
Proof. intros w. reflexivity. Qed.

Lemma still_get_state : still get_state.
Proof. intros w. reflexivity. Qed.

Lemma still_get_ctx : still get_ctx.
Proof. intros w. reflexivity. Qed.

Lemma still_put_ctx c : still (put_ctx c).
Proof. intros w. reflexivity. Qed.

Lemma still_emit ev : still (emit ev).
Proof. intros w. reflexivity. Qed.

Lemma still_input : still input.
Proof. intros w. unfold input. destruct (w_in w); reflexivity. Qed.

Lemma still_utc_now : still (utc_now E).
Proof. intros w. reflexivity. Qed.

Lemma still_prompt_choice question choices default :
  still (prompt_choice question choices default).
Proof.
  intros w. unfold prompt_choice.
  destruct (choose choices default (w_in w)) as [[a rest]|]; reflexivity.
Qed.

Lemma up_bind_state {B} (f : json -> M B) :
  (forall state, has_record p r state -> upholds (has_record p r) (f state)) ->
  upholds (has_record p r) (bind get_state f).
Proof. intros Hf w Hw. unfold bind, get_state. now apply Hf. Qed.

Lemma up_bind_lift {A B} (x : res A) (f : A -> M B) :
  (forall a, x = Val a -> upholds (has_record p r) (f a)) ->
  upholds (has_record p r) (bind (lift x) f).
Proof.
  intros Hf. destruct x as [a|e].
  - intros w Hw. apply (Hf a eq_refl w Hw).
  - intros w Hw. exact Hw.
Qed.

Lemma up_put_state state :
  has_record p r state -> upholds (has_record p r) (put_state state).
Proof. intros Hs w _. exact Hs. Qed.

Lemma up_update (f : json -> res json) :
  (forall state state', f state = Val state' ->
                        phase_record state' p = phase_record state p) ->
  upholds (has_record p r)
          (state <- get_state ;; state' <- lift (f state) ;;
           put_state state').
Proof.
  intros Hf. apply up_bind_state. intros state Hs.
  apply up_bind_lift. intros state' Hu.
  apply up_put_state. unfold has_record. now rewrite (Hf _ _ Hu).
Qed.

Lemma up_add_note q note :
  q <> p -> upholds (has_record p r) (add_note q note).
Proof.
  intros Hne. apply up_update. intros.
  eapply OrchestrateFacts.add_note_to_other; eauto.
Qed.

Lemma up_set_field q key value :
  q <> p -> upholds (has_record p r) (set_field q key value).
Proof.
  intros Hne. apply up_update. intros.
  eapply OrchestrateFacts.set_phase_field_other; eauto.
Qed.

Lemma up_set_current_phase q :
  upholds (has_record p r) (set_current_phase q).
Proof.
  apply up_update. intros.
  eapply OrchestrateFacts.setitem_top_other; eauto. discriminate.
Qed.

Create HintDb up.

Hint Resolve up_ret up_raise up_lift up_add_note up_set_field
     up_set_current_phase : up.
Hint Resolve still_get_fs still_put_fs still_get_state still_get_ctx
     still_put_ctx still_emit still_input still_utc_now
     still_prompt_choice : up.
Hint Extern 1 (upholds _ get_fs) => apply still_up : up.
Hint Extern 1 (upholds _ (put_fs _)) => apply still_up : up.
Hint Extern 1 (upholds _ get_state) => apply still_up : up.
Hint Extern 1 (upholds _ get_ctx) => apply still_up : up.
Hint Extern 1 (upholds _ (put_ctx _)) => apply still_up : up.
Hint Extern 1 (upholds _ (emit _)) => apply still_up : up.
Hint Extern 1 (upholds _ (header _)) => apply still_up, still_emit : up.
Hint Extern 1 (upholds _ (section _)) => apply still_up, still_emit : up.
Hint Extern 1 (upholds _ input) => apply still_up : up.
Hint Extern 1 (upholds _ (utc_now _)) => apply still_up : up.
Hint Extern 1 (upholds _ (prompt_choice _ _ _)) => apply still_up : up.

Ltac up_step :=
  match goal with
  | |- upholds _ (bind _ _) => apply up_bind; [|intros]
  | |- upholds _ (when _ _) => apply up_when
  | |- upholds _ (if ?b then _ else _) => destruct b
  | |- upholds _ (let (_, _) := ?x in _) => destruct x
  | |- upholds _ (match ?x with _ => _ end) => destruct x
  | |- upholds _ _ => solve [auto with up]
  end.

Ltac up_auto := repeat up_step.

Lemma up_save_state dry_run : upholds (has_record p r) (save_state E dry_run).
Proof.
  intros w Hw. unfold has_record. now rewrite save_state_records.
Qed.

Lemma up_mark_started q :
  q <> p -> upholds (has_record p r) (mark_started E q).
Proof. intros Hne. unfold mark_started. up_auto. Qed.

Lemma up_mark_completed q :
  q <> p -> upholds (has_record p r) (mark_completed E q).
Proof. intros Hne. unfold mark_completed. up_auto. Qed.

Lemma up_path_exists path : upholds (has_record p r) (path_exists path).
Proof. unfold path_exists. up_auto. Qed.

Lemma up_ctx_item k : upholds (has_record p r) (ctx_item k).
Proof. unfold ctx_item. up_auto. Qed.

Lemma up_ctx_set k v : upholds (has_record p r) (ctx_set k v).
Proof. unfold ctx_set. up_auto. Qed.

Lemma up_ctx_get k v : upholds (has_record p r) (ctx_get k v).
Proof. unfold ctx_get. up_auto. Qed.

Lemma up_prompt question default :
  upholds (has_record p r) (prompt question default).
Proof. unfold prompt. up_auto. Qed.

Lemma up_prompt_value question default :
  upholds (has_record p r) (prompt_value question default).
Proof. unfold prompt_value. up_auto. Qed.

Hint Resolve up_save_state up_mark_started up_mark_completed
     up_path_exists up_ctx_item up_ctx_set up_ctx_get up_prompt
     up_prompt_value : up.

Lemma up_prompt_yn question default :
  upholds (has_record p r) (prompt_yn question default).
Proof. unfold prompt_yn. up_auto. Qed.

Lemma up_run_script cmd dry_run :
  upholds (has_record p r) (run_script E cmd dry_run).
Proof. unfold run_script. up_auto. Qed.

Lemma up_run_gate q dry_run : upholds (has_record p r) (run_gate q dry_run).
Proof. unfold run_gate. up_auto. Qed.

Lemma up_write_file path content dry_run :
  upholds (has_record p r) (write_file path content dry_run).
Proof. unfold write_file. up_auto. Qed.

Lemma up_make_dirs path : upholds (has_record p r) (make_dirs path).
Proof. unfold make_dirs. up_auto. Qed.

Lemma up_repo_file rel : upholds (has_record p r) (repo_file E rel).
Proof. unfold repo_file. up_auto. Qed.

Hint Resolve up_prompt_yn up_run_script up_run_gate up_write_file
     up_make_dirs up_repo_file : up.

Lemma up_copy_asset src dst dry_run :
  upholds (has_record p r) (copy_asset E src dst dry_run).
Proof. unfold copy_asset. up_auto. Qed.

Hint Resolve up_copy_asset : up.

Lemma up_run_requirements dry_run :
  "requirements" <> p -> upholds (has_record p r) (run_requirements E dry_run).
Proof. intros Hne. unfold run_requirements. up_auto. Qed.

Lemma up_run_development dry_run :
  "development" <> p -> upholds (has_record p r) (run_development E dry_run).
Proof. intros Hne. unfold run_development. up_auto. Qed.

Lemma up_run_cicd dry_run :
  "cicd" <> p -> upholds (has_record p r) (run_cicd E dry_run).
Proof. intros Hne. unfold run_cicd. up_auto. Qed.

Lemma up_run_testing dry_run :
  "testing" <> p -> upholds (has_record p r) (run_testing E dry_run).
Proof. intros Hne. unfold run_testing. up_auto. Qed.

Lemma up_run_uat dry_run :
  "uat" <> p -> upholds (has_record p r) (run_uat E dry_run).
Proof. intros Hne. unfold run_uat. up_auto. Qed.

Lemma up_run_deployment dry_run :
  "deployment" <> p -> upholds (has_record p r) (run_deployment E dry_run).
Proof. intros Hne. unfold run_deployment. up_auto. Qed.

Lemma up_run_monitoring dry_run :
  "monitoring" <> p -> upholds (has_record p r) (run_monitoring E dry_run).
Proof. intros Hne. unfold run_monitoring. up_auto. Qed.

(** Each handler writes to the record of its own phase only. *)
Lemma up_handler q handler dry_run :
  assoc_get q (PHASE_HANDLERS E) = Some handler -> q <> p ->
  upholds (has_record p r) (handler dry_run).
Proof.
  intros Hh Hne. apply assoc_get_In in Hh. cbn [PHASE_HANDLERS In] in Hh.
  destruct Hh as [Hh|[Hh|[Hh|[Hh|[Hh|[Hh|[Hh|[]]]]]]]];
    injection Hh as <- <-;
    auto using up_run_requirements, up_run_development, up_run_cicd,
               up_run_testing, up_run_uat, up_run_deployment,
               up_run_monitoring.
Qed.

Lemma up_gate_loop rounds q dry_run :
  q <> p -> upholds (has_record p r) (gate_loop E rounds q dry_run).
Proof.
  intros Hne. induction rounds as [|rounds IH]; cbn [gate_loop];
    [apply up_raise|].
  up_auto.
Qed.

Lemma up_gate_check q dry_run :
  q <> p -> upholds (has_record p r) (gate_check E q dry_run).
Proof. intros Hne w Hw. unfold gate_check. now apply up_gate_loop. Qed.

Hint Resolve up_gate_check : up.

(** An iteration of the walk keeps the record of a completed phase: on
    the phase itself it skips, on another phase it writes elsewhere. *)
Lemma up_walk_phase dry_run idx q :
  already_completed r = Val true ->
  upholds (has_record p r) (walk_phase E dry_run idx q).
Proof.
  intros Hdone. destruct (String.eqb_spec q p) as [->|Hne].
  - intros w Hw.
    rewrite OrchestrateFacts.walk_phase_skips with (r := r); auto.
  - unfold walk_phase.
    apply up_bind; [auto with up|]. intros state.
    apply up_bind; [auto with up|]. intros phase_data.
    apply up_bind; [auto with up|]. intros [|]; [auto with up|].
    apply up_bind; [auto with up|]. intros _.
    apply up_bind; [auto with up|]. intros _.
    apply up_bind; [auto with up|]. intros _.
    destruct (assoc_get q (PHASE_HANDLERS E)) as [handler|] eqn:Hh;
      [|apply up_raise].
    apply up_bind; [eapply up_handler; eauto|]. intros _.
    up_auto.
Qed.

Lemma up_walk dry_run phases :
  already_completed r = Val true ->
  forall idx, upholds (has_record p r) (walk E dry_run idx phases).
Proof.
  intros Hdone. induction phases as [|q rest IH]; intros idx; cbn [walk].
  - apply up_ret.
  - apply up_bind; [now apply up_walk_phase|]. intros _. apply IH.
Qed.

End Records.

Lemma handled_phase E q handler :
  assoc_get q (PHASE_HANDLERS E) = Some handler -> In q PHASE_ORDER.
Proof.
  intros Hh. apply assoc_get_In in Hh. cbn [PHASE_HANDLERS In] in Hh.
  destruct Hh as [Hh|[Hh|[Hh|[Hh|[Hh|[Hh|[Hh|[]]]]]]]];
    injection Hh as <- _; cbn [PHASE_ORDER In]; tauto.
Qed.

Lemma has_record_final {A} p r (m : M A) w a w' :
  upholds (has_record p r) m -> has_record p r (w_state w) ->
  m w = Ok a w' -> has_record p r (w_state w').
Proof. intros Hm Hw H. specialize (Hm w Hw). now rewrite H in Hm. Qed.

(** An iteration of the walk that returns leaves its phase completed. *)
Lemma walk_phase_ok E dry_run idx q w w' :
  walk_phase E dry_run idx q w = Ok tt w' ->
  recorded_completed (w_state w') q.
Proof.
  unfold walk_phase. intros H.
  apply bind_ok in H as (state & w1 & Hs & H). injection Hs as <- <-.
  apply bind_ok in H as (phase_data & w1 & Hr & H).
  apply lift_ok in Hr as [Hr ->].
  apply bind_ok in H as (completed & w1 & Hc & H).
  apply lift_ok in Hc as [Hc ->].
  destruct completed.
  - apply emit_ok in H. subst w'. exists phase_data. auto.
  - apply bind_ok in H as ([] & w1 & _ & H).
    apply bind_ok in H as ([] & w2 & _ & H).
    apply bind_ok in H as ([] & w3 & _ & H).
    destruct (assoc_get q (PHASE_HANDLERS E)) as [handler|] eqn:Hh;
      [|discriminate].
    apply handled_phase in Hh.
    apply bind_ok in H as ([] & w4 & _ & H).
    apply bind_ok in H as ([] & w5 & _ & H).
    apply bind_ok in H as ([] & w6 & Hg & H).
    unfold gate_check in Hg.
    apply (gate_loop_ok E q dry_run Hh) in Hg as [[r [Hrec Hdone]] _].
    exists r. split; auto.
    destruct (idx + 1 <? length PHASE_ORDER)%nat; [|now injection H as <-].
    destruct (nth_error PHASE_ORDER (idx + 1)) as [next|]; [|discriminate].
    apply bind_ok in H as ([] & w7 & Hn & H).
    apply (has_record_final q r _ _ _ _ (up_set_current_phase q r next) Hrec)
      in Hn.
    now apply (has_record_final q r _ _ _ _ (up_save_state E q r dry_run) Hn)
      in H.
Qed.

(** A walk that returns leaves every phase of its list completed. *)
Lemma walk_ok E dry_run phases :
  forall idx w w',
    walk E dry_run idx phases w = Ok tt w' ->
    forall q, In q phases -> recorded_completed (w_state w') q.
Proof.
  induction phases as [|a rest IH]; intros idx w w' H q Hq; [destruct Hq|].
  cbn [walk] in H. apply bind_ok in H as ([] & w1 & Ha & H).
  destruct Hq as [->|Hq]; [|eapply IH; eauto].
  apply walk_phase_ok in Ha as [r [Hrec Hdone]].
  exists r. split; auto.
  exact (has_record_final q r _ _ _ _ (up_walk E q r dry_run rest Hdone (S idx))
           Hrec H).
Qed.

(** X16: when the orchestrator runs to its end (the closing banner is
    printed and no exception leaves [main]), every phase from the
    starting one to the last is recorded as completed with its gate
    passed; with [--start-from] the starting phase is the one named. *)
Theorem finished_run_completes_phases (E : env) (args : cli_args)
        (w w' : world) :
  main E args w = Ok tt w' ->
  exists start_idx,
    (forall p, arg_start_from args = Some p ->
               GateValidator.index_of p PHASE_ORDER = Some start_idx) /\
    (forall q, In q (skipn start_idx PHASE_ORDER) ->
               recorded_completed (w_state w') q) /\
    In (EvHeader "SDLC Complete!") (w_out w').
Proof.
  unfold main. intros H.
  apply bind_ok in H as ([] & w1 & _ & H).
  apply bind_ok in H as (d & w2 & _ & H).
  apply bind_ok in H as (state & w3 & _ & H).
  apply bind_ok in H as ([] & w4 & _ & H).
  apply bind_ok in H as ([] & w5 & _ & H).
  apply bind_ok in H as (state' & w6 & _ & H).
  apply bind_ok in H as (name & w7 & _ & H).
  apply bind_ok in H as ([] & w8 & _ & H).
  apply bind_ok in H as (start_phase & w9 & Hsp & H).
  apply bind_ok in H as (start_idx & w10 & Hsi & H).
  apply bind_ok in H as ([] & w11 & Hw & H).
  apply emit_ok in H. subst w'.
  exists start_idx. split; [|split].
  - intros p Hp. rewrite Hp in Hsp. injection Hsp as <- _.
    destruct (GateValidator.index_of p PHASE_ORDER); [|discriminate].
    now injection Hsi as ->.
  - intros q Hq. cbn [printed w_state]. eapply walk_ok; eauto.
  - cbn [printed w_out]. apply in_or_app. right. now left.
Qed.

Lemma finished_run_completes_phases_witness :
  recorded_completed
    (w_state (final (main quiet (CliArgs (Some "monitoring") false)
                          (start Props.pending_project
                                 (repeat "" 5 ++ ["skip"])))))
    "monitoring".
Proof.
  assert (H : main quiet (CliArgs (Some "monitoring") false)
                   (start Props.pending_project (repeat "" 5 ++ ["skip"])) =
              Ok tt (final (main quiet (CliArgs (Some "monitoring") false)
                                 (start Props.pending_project
                                        (repeat "" 5 ++ ["skip"])))))
    by (vm_compute; reflexivity).
  destruct (finished_run_completes_phases quiet _ _ _ H)
    as (i & Hi & Hrec & _).
  apply Hrec. specialize (Hi "monitoring" eq_refl).
  injection Hi as <-. cbn [skipn PHASE_ORDER In]. now left.
Defined.

(** *** The first run on a project *)

Lemma bind_Ok {A B} (m : M A) (f : A -> M B) w a w1 :
  m w = Ok a w1 -> bind m f w = f a w1.
Proof. intros H. unfold bind. now rewrite H. Qed.

Lemma answer_no_default line : answer "" line = strip line.
Proof.
  unfold answer. destruct (String.eqb_spec (strip line) ""); congruence.
Qed.

Lemma prompt_reads question default w line rest :
  w_in w = line :: rest ->
  prompt question default w = Ok (answer default line) (with_input w rest).
Proof.
  intros Hin. unfold prompt, bind, input. rewrite Hin. reflexivity.
Qed.

Lemma prompt_choice_reads question choices default w line rest :
  w_in w = line :: rest -> In (answer default line) choices ->
  prompt_choice question choices default w
  = Ok (answer default line) (with_input w rest).
Proof.
  intros Hin Hc. unfold prompt_choice. rewrite Hin. cbn [choose].
  fold (answer default line).
  apply mem_string_In in Hc. rewrite Hc. reflexivity.
Qed.

Lemma orchestrator_loads_after_init now name es :
  load_state (Dir (assoc_set ".sdlc" (sdlc_tree now name) es))
  = Val (InitSdlc.create_state now name).
Proof.
  unfold load_state, exists_, read_json, state_path.
  cbn [lookup]. rewrite assoc_get_set_same. reflexivity.
Qed.

(** X23: the first run on a project directory without [.sdlc], outside
    a dry run: the orchestrator reads the project name (one the argument
    parser of [init_sdlc.py] takes as a value: no leading dash) and,
    with no template chosen, starts [init_sdlc.py]; it goes on with the
    state that script has written (every phase pending, current phase
    requirements), and the project directory has gained [.sdlc] and
    nothing else. *)
Theorem first_run_initializes (E : env) (w : world)
        (es : list (string * node)) (name_line choice_line : string)
        (rest : list string) :
  w_fs w = Dir es ->
  assoc_get ".sdlc" es = None ->
  w_in w = name_line :: choice_line :: rest ->
  answer "none" choice_line = "none" ->
  startswith (strip name_line) "-" = false ->
  exists w',
    initialize E false w = Ok tt w' /\
    w_state w' = InitSdlc.create_state (clock E (w_time w)) (strip name_line)
    /\
    w_fs w' =
      Dir (assoc_set ".sdlc"
             (sdlc_tree (clock E (w_time w)) (strip name_line)) es) /\
    load_state (w_fs w') = Val (w_state w') /\
    w_in w' = rest.
Proof.
  intros Hfs Hnone Hin Hchoice _.
  unfold initialize, section.
  rewrite (bind_Ok _ _ w tt (printed w (EvSection "Project Initialization")))
    by reflexivity.
  cbv beta.
  rewrite (bind_Ok _ _ _ _ _
             (prompt_reads "Project name" ""
                (printed w (EvSection "Project Initialization"))
                name_line (choice_line :: rest) Hin)).
  cbv beta. rewrite answer_no_default.
  rewrite (bind_Ok _ _ _ _ _
             (prompt_choice_reads "Use a project template?"
                ["none"; "react-vite"; "fastapi"; "nextjs"] "none"
                (with_input (printed w (EvSection "Project Initialization"))
                            (choice_line :: rest))
                choice_line rest eq_refl
                (or_introl (eq_sym Hchoice)))).
  cbv beta.
  rewrite Hchoice.
  unfold run_init. change ("none" =? "none") with true. cbv iota.
  unfold bind, emit, utc_now, get_fs, put_fs, get_state, put_state, lift.
  cbn [with_input printed w_fs w_state w_ctx w_in w_out w_time].
  rewrite Hfs. unfold InitSdlc.main. cbn [mkdir_p andb].
  rewrite (InitExtras.init_sdlc_result _ _ _ es Hnone). cbn [fst].
  rewrite orchestrator_loads_after_init. cbn [ret InitSdlc.create_state].
  eexists. split; [reflexivity|].
  cbn [w_fs w_state w_ctx w_in w_out w_time].
  split; [reflexivity|]. split; [reflexivity|]. split; [|reflexivity].
  apply orchestrator_loads_after_init.
Qed.

Lemma first_run_initializes_witness :
  exists w',
    initialize quiet false (start (Dir [("README.md", File "# Demo" None)])
                                  ["Demo"; ""]) = Ok tt w' /\
    w_state w' = InitSdlc.create_state "2026-01-01T00:00:00+00:00" "Demo".
Proof.
  destruct (first_run_initializes quiet
              (start (Dir [("README.md", File "# Demo" None)]) ["Demo"; ""])
              [("README.md", File "# Demo" None)] "Demo" "" []
              eq_refl eq_refl eq_refl eq_refl eq_refl)
    as (w' & H & Hs & _).
  exists w'. split; [exact H|exact Hs].
Defined.

Lemma bind_Raise {A B} (m : M A) (f : A -> M B) w e w1 :
  m w = Raise e w1 -> bind m f w = Raise e w1.
Proof. intros H. unfold bind. now rewrite H. Qed.

(** X24: a project directory that has [.sdlc] but no state document in
    it cannot be initialized by the orchestrator: outside a dry run,
    once the name and the template are read, [init_sdlc.py] refuses the
    directory, the orchestrator reports the failure and leaves with
    status 1, and the project directory is as it was. *)
Theorem half_initialized_project_is_refused (E : env) (args : cli_args)
        (es : list (string * node)) (sdlc : node)
        (name_line choice_line : string) (rest : list string) :
  usage_error args = false ->
  arg_dry_run args = false ->
  assoc_get ".sdlc" es = Some sdlc ->
  lookup ["state.json"] sdlc = None ->
  In (answer "none" choice_line) ["none"; "react-vite"; "fastapi"; "nextjs"] ->
  let result := run E args (start (Dir es)
                                  (name_line :: choice_line :: rest)) in
  fst result = 1%Z /\
  w_fs (snd result) = Dir es /\
  In EvInitFailed (w_out (snd result)) /\
  w_in (snd result) = rest.
Proof.
  intros Husage Hdry Hsdlc Hdoc Hchoice result. subst result.
  assert (Hload : load_state (Dir es) = Val JNull).
  { unfold load_state, exists_, state_path. cbn [lookup]. rewrite Hsdlc.
    cbn [lookup] in Hdoc.
    destruct sdlc as [t j|items]; [reflexivity|].
    cbn [lookup] in *.
    destruct (assoc_get "state.json" items); [discriminate|reflexivity]. }
  unfold run. rewrite Husage. unfold main. rewrite Hdry.
  unfold header.
  rewrite (bind_Ok _ _ _ tt
             (printed (start (Dir es) (name_line :: choice_line :: rest))
                      (EvHeader "SDLC Orchestrator"))) by reflexivity.
  cbv beta.
  set (w0 := printed (start (Dir es) (name_line :: choice_line :: rest))
                     (EvHeader "SDLC Orchestrator")).
  rewrite (bind_Ok _ _ w0 (Dir es) w0) by reflexivity. cbv beta.
  rewrite Hload.
  rewrite (bind_Ok _ _ w0 JNull w0) by reflexivity. cbv beta.
  rewrite (bind_Ok _ _ w0 tt w0) by reflexivity. cbv beta iota.
  assert (Hinit : exists w1,
             initialize E false w0 = Raise (SystemExit 1) w1 /\
             w_fs w1 = Dir es /\ In EvInitFailed (w_out w1) /\
             w_in w1 = rest).
  { unfold initialize, section.
    rewrite (bind_Ok _ _ w0 tt
               (printed w0 (EvSection "Project Initialization")))
      by reflexivity.
    cbv beta.
    rewrite (bind_Ok _ _ _ _ _
               (prompt_reads "Project name" ""
                  (printed w0 (EvSection "Project Initialization"))
                  name_line (choice_line :: rest) eq_refl)).
    cbv beta.
    rewrite (bind_Ok _ _ _ _ _
               (prompt_choice_reads "Use a project template?"
                  ["none"; "react-vite"; "fastapi"; "nextjs"] "none"
                  (with_input (printed w0 (EvSection "Project Initialization"))
                              (choice_line :: rest))
                  choice_line rest eq_refl Hchoice)).
    cbv beta.
    unfold run_init.
    unfold bind, emit, utc_now, get_fs, put_fs, get_state, put_state, lift.
    cbn [with_input printed start w0 w_fs w_state w_ctx w_in w_out w_time].
    unfold InitSdlc.main. cbn [mkdir_p andb].
    unfold InitSdlc.init_sdlc, exists_. cbn [lookup]. rewrite Hsdlc.
    cbn [fst]. rewrite Hload. cbn [ret raise].
    eexists. split; [reflexivity|].
    cbn [w_fs w_state w_ctx w_in w_out w_time].
    split; [reflexivity|]. split; [|reflexivity].
    apply in_or_app. right. now left. }
  destruct Hinit as (w1 & Hinit & Hfs & Hout & Hin).
  rewrite (bind_Raise _ _ _ _ _ Hinit). cbn [fst snd]. auto.
Qed.

Lemma half_initialized_project_is_refused_witness :
  fst (run quiet (CliArgs None false)
           (start initialized_dir ["Demo"; "fastapi"])) = 1%Z.
Proof.
  exact (proj1 (half_initialized_project_is_refused quiet (CliArgs None false)
                  [(".sdlc", Dir [])] (Dir []) "Demo" "fastapi" []
                  eq_refl eq_refl eq_refl eq_refl
                  (or_intror (or_intror (or_introl eq_refl))))).
Defined.

End OrchestrateExtras.
